(** * RRZ Unified AI Gateway: a shallow embedding and its properties

    The gateway is one serverless function.  A request names a task, the
    function builds a prompt pair for it, sends it to a chat-completion
    endpoint (primary model first, fallback model when that call fails),
    recovers a JSON value from the model's text and answers with a JSON
    body.  A small in-memory counter limits the request rate per client.

    Part I embeds the JavaScript runtime pieces the function relies on
    (strings, numbers, JSON values, [JSON.parse], [JSON.stringify]) and
    then the functions of the gateway under the names they have in the
    source.  Part II states and proves the properties. *)

From Stdlib Require Import ZArith NArith List String Ascii Lia Bool DecimalPos DecimalN.
From stdpp Require Import base option list gmap.

Local Open Scope N_scope.
Set Warnings "-register-all".
Set Default Proof Using "Type".

(* ===================================================================== *)
(** * Part I.  Definitions *)
(* ===================================================================== *)

(** ** Strings

    A JavaScript string is a sequence of UTF-16 code units; [length],
    [slice], [startsWith] and the regular expression of the extractor all
    count code units.  A code unit is a number below 65536. *)

Definition ustring := list N.

(** Literals of the source are written as Rocq strings, which hold UTF-8
    bytes; [lit] decodes them to code units (all literals of the source lie
    in the basic plane, so sequences of one to three bytes suffice). *)
Fixpoint utf16_of_utf8 (bs : list N) : ustring :=
  match bs with
  | [] => []
  | b :: r =>
    if b <? 0x80 then b :: utf16_of_utf8 r
    else if b <? 0xE0 then
      match r with
      | c :: r' => ((b mod 32) * 64 + c mod 64) :: utf16_of_utf8 r'
      | [] => [b]
      end
    else
      match r with
      | c :: d :: r' =>
        ((b mod 16) * 4096 + (c mod 64) * 64 + d mod 64) :: utf16_of_utf8 r'
      | _ => b :: r
      end
  end.

Definition lit (s : string) : ustring :=
  utf16_of_utf8 (List.map N_of_ascii (list_ascii_of_string s)).
Arguments lit s%_string.

(** Texts with double quotes in them are written with an apostrophe in
    place of each double quote. *)
Definition qlit (s : string) : ustring :=
  List.map (fun c => if c =? 39 then 34 else c) (lit s).
Arguments qlit s%_string.

(** [s.length] *)
Definition str_length (s : ustring) : Z := Z.of_nat (length s).

(** [s.startsWith(p)] *)
Fixpoint startsWith (p s : ustring) : bool :=
  match p, s with
  | [], _ => true
  | a :: p', b :: s' => (a =? b) && startsWith p' s'
  | _ :: _, [] => false
  end.

(** [s.toLowerCase()].  Exact on ASCII and Latin-1 letters and on the code
    points whose lower case reaches into those ranges from outside (U+0130,
    U+0178, U+1E9E, U+212A, U+212B); the remaining case pairs of Unicode map
    units above U+00FF to units above U+00FF and are left in place. *)
Definition lower_unit (c : N) : ustring :=
  if (0x41 <=? c) && (c <=? 0x5A) then [c + 32]
  else if (0xC0 <=? c) && (c <=? 0xDE) && negb (c =? 0xD7) then [c + 32]
  else if c =? 0x130 then [0x69; 0x307]
  else if c =? 0x178 then [0xFF]
  else if c =? 0x1E9E then [0xDF]
  else if c =? 0x212A then [0x6B]
  else if c =? 0x212B then [0xE5]
  else [c].

Definition toLowerCase (s : ustring) : ustring := flat_map lower_unit s.

(** White space and line terminators of ECMAScript, as [trim] strips them. *)
Definition is_js_space (c : N) : bool :=
  ((0x09 <=? c) && (c <=? 0x0D)) || (c =? 0x20) || (c =? 0xA0)
  || (c =? 0x1680) || ((0x2000 <=? c) && (c <=? 0x200A))
  || (c =? 0x2028) || (c =? 0x2029) || (c =? 0x202F) || (c =? 0x205F)
  || (c =? 0x3000) || (c =? 0xFEFF).

Fixpoint trimStart (s : ustring) : ustring :=
  match s with
  | [] => []
  | c :: r => if is_js_space c then trimStart r else s
  end.

Fixpoint trimEnd (s : ustring) : ustring :=
  match s with
  | [] => []
  | c :: r =>
    match trimEnd r with
    | [] => if is_js_space c then [] else [c]
    | r' => c :: r'
    end
  end.

(** [s.trim()] *)
Definition trim (s : ustring) : ustring := trimEnd (trimStart s).

(** [s.slice(0, n)] for a count [n] that is not negative. *)
Definition slice0 (n : Z) (s : ustring) : ustring := take (Z.to_nat n) s.

(** ** Numbers

    A JavaScript number is an IEEE double.  The gateway never computes with
    the numbers of a payload: it reads them from JSON text, tests them for
    zero, prints them.  A finite double is kept as the decimal that
    [Number::toString] prints for it: the significant digits [d1 .. dk] (no
    zero at either end) and the position [n] of the decimal point, for the
    value [0.d1...dk * 10^n]; zero has no digits.  That decimal is the
    shortest one that reads back as the double, so the doubles and these
    decimals correspond one to one.  A literal beyond the largest double
    reads as [Infinity].  The two zeros print alike and are both falsy; they
    are one number here.  NaN does not arise: the gateway does no
    arithmetic. *)

Record dec : Type := Dec { dneg : bool; ddigits : list N; dpoint : Z }.

Definition dec_zero : dec := Dec false [] 0.
Definition dec_is_zero (d : dec) : bool :=
  match ddigits d with [] => true | _ => false end.

Inductive number : Type :=
| Finite (d : dec)
| Infinity (neg : bool).

Coercion Finite : dec >-> number.

(** The default temperature, [0.2]. *)
Definition dec_0_2 : dec := Dec false [2] 0.

Definition digit_units (ds : list N) : ustring := List.map (fun d => 48 + d) ds.

(** The digits of a decimal numeral of the library. *)
Fixpoint uint_digits (u : Decimal.uint) : list N :=
  match u with
  | Decimal.Nil => []
  | Decimal.D0 u => 0 :: uint_digits u
  | Decimal.D1 u => 1 :: uint_digits u
  | Decimal.D2 u => 2 :: uint_digits u
  | Decimal.D3 u => 3 :: uint_digits u
  | Decimal.D4 u => 4 :: uint_digits u
  | Decimal.D5 u => 5 :: uint_digits u
  | Decimal.D6 u => 6 :: uint_digits u
  | Decimal.D7 u => 7 :: uint_digits u
  | Decimal.D8 u => 8 :: uint_digits u
  | Decimal.D9 u => 9 :: uint_digits u
  end.

Definition digits_value (ds : list N) : N :=
  fold_left (fun acc d => 10 * acc + d) ds 0.

Fixpoint strip_zeros (ds : list N) : list N :=
  match ds with
  | [] => []
  | d :: r => if d =? 0 then strip_zeros r else ds
  end.

(** The decimal a literal is written as, in normal form: sign, digits before
    and after the point, exponent. *)
Definition literal_decimal (neg : bool) (ip fp : list N) (e : Z) : dec :=
  let all := ip ++ fp in
  let m := strip_zeros all in
  match rev (strip_zeros (rev m)) with
  | [] => dec_zero
  | sig =>
    Dec neg sig (Z.of_nat (length ip) - Z.of_nat (length all - length m) + e)
  end.

(** *** Rounding to a double

    A double that is not zero is [q * 2^k] for an integer [q] below [2^53]
    and an exponent [k] from [-1074] to [971]; [q] is at least [2^52] unless
    [k] is [-1074]. *)

(** [floor (log2 (a / b))] for positive [a] and [b]. *)
Definition log2_ratio (a b : Z) : Z :=
  let l := (Z.log2 a - Z.log2 b)%Z in
  if (if (0 <=? l)%Z then (b * 2 ^ l <=? a)%Z else (b <=? a * 2 ^ (- l))%Z)
  then l else (l - 1)%Z.

(** [a / b] rounded to the nearest integer, a tie to the even one. *)
Definition round_half_even (a b : Z) : Z :=
  let q := (a / b)%Z in
  match (2 * (a mod b) ?= b)%Z with
  | Lt => q
  | Gt => (q + 1)%Z
  | Eq => if Z.even q then q else (q + 1)%Z
  end.

(** The double nearest to [a / b], for positive [a] and [b], as [(q, k)];
    [None] when the rounded value lies beyond the largest double. *)
Definition nearest_double (a b : Z) : option (Z * Z) :=
  let k := Z.max (log2_ratio a b - 52) (-1074) in
  let q := if (0 <=? k)%Z then round_half_even a (b * 2 ^ k)
           else round_half_even (a * 2 ^ (- k)) b in
  let '(q, k) := if (q =? 2 ^ 53)%Z then (2 ^ 52, k + 1)%Z else (q, k) in
  if (971 <? k)%Z then None else Some (q, k).

(** The double a decimal rounds to, whatever its sign; zero is [(0, -1074)]. *)
Definition double_of_dec (d : dec) : option (Z * Z) :=
  match ddigits d with
  | [] => Some (0, -1074)%Z
  | ds =>
    let m := Z.of_N (digits_value ds) in
    let e := (dpoint d - Z.of_nat (length ds))%Z in
    if (0 <=? e)%Z then nearest_double (m * 10 ^ e) 1
    else nearest_double m (10 ^ (- e))
  end.

(** The decimal [s * 10^e] in normal form. *)
Definition dec_of_Z (neg : bool) (s e : Z) : dec :=
  literal_decimal neg (uint_digits (N.to_uint (Z.to_N s))) [] e.

(** The two decimals of [p] digits around the double [q * 2^k], the nearer
    one first and of two equally near ones the even one first.  The double
    is the decimal [m * 10^e] exactly. *)
Definition neighbours (neg : bool) (q k : Z) (p : nat) : list dec :=
  let '(m, e) := if (0 <=? k)%Z then (q * 2 ^ k, 0)%Z else (q * 5 ^ (- k), k)%Z in
  let len := Z.of_nat (length (uint_digits (N.to_uint (Z.to_N m)))) in
  let cut := (len - Z.of_nat p)%Z in
  if (cut <=? 0)%Z then [dec_of_Z neg m e]
  else
    let unit := (10 ^ cut)%Z in
    let lo := (m / unit)%Z in
    let down := dec_of_Z neg lo (e + cut) in
    let up := dec_of_Z neg (lo + 1) (e + cut) in
    match (2 * (m mod unit) ?= unit)%Z with
    | Lt => [down; up]
    | Gt => [up; down]
    | Eq => if Z.even lo then [down; up] else [up; down]
    end.

Definition reads_as (b : Z * Z) (d : dec) : bool :=
  match double_of_dec d with
  | Some (q, k) => (q =? fst b)%Z && (k =? snd b)%Z
  | None => false
  end.

(** The digits [Number::toString] prints for the double [q * 2^k]: as few
    as read back as the same double, and of the decimals with that many
    digits the one nearest to the double. *)
Definition shortest (neg : bool) (q k : Z) : option dec :=
  head (List.filter (reads_as (q, k)) (flat_map (neighbours neg q k) (seq 1 17))).

(** The number a decimal reads as: the nearest double, ties to the even
    mantissa.  Seventeen digits tell any two doubles apart, so the search of
    [shortest] finds its decimal; the decimal as written stands in to make
    the function total. *)
Definition Number_of_dec (d : dec) : number :=
  match double_of_dec d with
  | None => Infinity (dneg d)
  | Some (q, k) =>
    if (q =? 0)%Z then Finite dec_zero
    else Finite (default d (shortest (dneg d) q k))
  end.

(** The value of a numeric literal. *)
Definition number_of_literal (neg : bool) (ip fp : list N) (e : Z) : number :=
  Number_of_dec (literal_decimal neg ip fp e).

(** *** Printing *)

(** The decimal numeral of a natural number, as template literals and
    [Number::toString] print the integers this program prints. *)
Definition N_to_string (n : N) : ustring := digit_units (uint_digits (N.to_uint n)).

(** [Number::toString] in radix 10, for the digits [d1 :: ds] and the point
    at [n]: plain digits with zeros appended, digits around a point, zeros
    after [0.], or exponent notation outside [-6 < n <= 21]. *)
Definition unsigned_to_string (d1 : N) (ds : list N) (n : Z) : ustring :=
  let k := Z.of_nat (length (d1 :: ds)) in
  if (k <=? n)%Z && (n <=? 21)%Z then
    digit_units (d1 :: ds) ++ repeat 48 (Z.to_nat (n - k))
  else if (0 <? n)%Z && (n <=? 21)%Z then
    digit_units (take (Z.to_nat n) (d1 :: ds)) ++ [46]
    ++ digit_units (drop (Z.to_nat n) (d1 :: ds))
  else if (-6 <? n)%Z && (n <=? 0)%Z then
    [48; 46] ++ repeat 48 (Z.to_nat (- n)) ++ digit_units (d1 :: ds)
  else
    digit_units [d1]
    ++ (match ds with [] => [] | _ => 46 :: digit_units ds end)
    ++ [101] ++ (if (n - 1 <? 0)%Z then [45] else [43])
    ++ N_to_string (Z.abs_N (n - 1)).

Definition num_to_string (d : dec) : ustring :=
  match ddigits d with
  | [] => [48]
  | d1 :: ds => (if dneg d then [45] else []) ++ unsigned_to_string d1 ds (dpoint d)
  end.

(** [Number::toString] *)
Definition number_to_string (x : number) : ustring :=
  match x with
  | Finite d => num_to_string d
  | Infinity neg => (if neg then [45] else []) ++ lit "Infinity"
  end.

(** ** Values

    What [JSON.parse] can return: the values a request body, a payload or an
    upstream answer consists of.  An object is the list of its own
    properties, without repeated keys, in the order in which the engine
    enumerates them: the keys that are array indices in ascending order,
    then the other keys in the order of their creation.  [undefined] is not
    a JSON value; a JavaScript expression that may be [undefined] has type
    [option value]. *)

Inductive value : Type :=
| JNull
| JBool (b : bool)
| JNum (x : number)
| JStr (s : ustring)
| JArr (l : list value)
| JObj (kvs : list (ustring * value)).

(** Thrown values: an error object with its [name] and [message]. *)
Record js_error : Type := JsError { ename : ustring; emessage : ustring }.

Inductive result (A : Type) : Type :=
| Ok (a : A)
| Throw (e : js_error).
Arguments Ok {A} a.
Arguments Throw {A} e.

Global Instance result_ret : MRet result := fun _ a => Ok a.
Global Instance result_bind : MBind result := fun _ _ k r =>
  match r with Ok a => k a | Throw e => Throw e end.

Definition TypeError (msg : string) : js_error := JsError (lit "TypeError") (lit msg).
Definition Error (msg : ustring) : js_error := JsError (lit "Error") msg.

(** [String(e)] for an error object ([Error.prototype.toString]). *)
Definition String_of_error (e : js_error) : ustring :=
  match ename e, emessage e with
  | [], m => m
  | n, [] => n
  | n, m => n ++ lit ": " ++ m
  end.

(** Truthiness ([ToBoolean]). *)
Definition truthy (v : value) : bool :=
  match v with
  | JNull => false
  | JBool b => b
  | JNum (Finite d) => negb (dec_is_zero d)
  | JNum (Infinity _) => true
  | JStr s => match s with [] => false | _ => true end
  | JArr _ | JObj _ => true
  end.

Definition truthy_opt (o : option value) : bool :=
  match o with Some v => truthy v | None => false end.

(** [a || b] *)
Definition js_or (a b : option value) : option value :=
  if truthy_opt a then a else b.

(** [a || b] where [b] is never [undefined]. *)
Definition js_or_else (a : option value) (b : value) : value :=
  match a with Some v => if truthy v then v else b | None => b end.

(** The same for things that are strings when they are present (header
    values, environment variables). *)
Definition str_or (a : option ustring) (b : ustring) : ustring :=
  match a with Some (c :: s) => c :: s | _ => b end.

Fixpoint assoc {A} (k : ustring) (kvs : list (ustring * A)) : option A :=
  match kvs with
  | [] => None
  | (k', v) :: r => if decide (k = k') then Some v else assoc k r
  end.

(** An array index: the decimal numeral, without leading zeros, of a number
    below [2^32 - 1]. *)
Definition array_index (k : ustring) : option N :=
  match k with
  | [] => None
  | c :: r =>
    if forallb (fun x => (48 <=? x) && (x <=? 57)) k
       && (negb (c =? 48) || match r with [] => true | _ => false end)
    then
      let n := fold_left (fun acc x => 10 * acc + (x - 48)) k 0 in
      if n <? 4294967295 then Some n else None
    else None
  end.

(** A new key [k] goes before the key [k'] of an object when it is an array
    index and [k'] is a greater one or none. *)
Definition precedes (k k' : ustring) : bool :=
  match array_index k, array_index k' with
  | Some i, Some j => i <? j
  | Some _, None => true
  | None, _ => false
  end.

Fixpoint obj_replace {A} (k : ustring) (v : A) (kvs : list (ustring * A))
  : list (ustring * A) :=
  match kvs with
  | [] => []
  | (k', v') :: r =>
    if decide (k = k') then (k, v) :: r else (k', v') :: obj_replace k v r
  end.

Fixpoint obj_insert {A} (k : ustring) (v : A) (kvs : list (ustring * A))
  : list (ustring * A) :=
  match kvs with
  | [] => [(k, v)]
  | (k', v') :: r =>
    if precedes k k' then (k, v) :: kvs else (k', v') :: obj_insert k v r
  end.

(** Defining a property: a repeated key keeps its place and takes the new
    value, a new key takes its place in the order of enumeration. *)
Definition obj_set {A} (k : ustring) (v : A) (kvs : list (ustring * A))
  : list (ustring * A) :=
  match assoc k kvs with
  | Some _ => obj_replace k v kvs
  | None => obj_insert k v kvs
  end.

(** [v.k] and [v?.k] for a property name that no built-in prototype defines
    (true of every name the gateway reads): the own property of an object,
    [undefined] on anything else. *)
Definition get (v : value) (k : string) : option value :=
  match v with
  | JObj kvs => assoc (lit k) kvs
  | _ => None
  end.

Definition oget (o : option value) (k : string) : option value :=
  match o with Some v => get v k | None => None end.

(** [v?.[0]] *)
Definition get0 (o : option value) : option value :=
  match o with
  | Some (JArr l) => head l
  | Some (JStr (c :: _)) => Some (JStr [c])
  | Some (JObj kvs) => assoc (lit "0") kvs
  | _ => None
  end.

Fixpoint join (sep : ustring) (l : list ustring) : ustring :=
  match l with
  | [] => []
  | [x] => x
  | x :: r => x ++ sep ++ join sep r
  end.

(** [ToString(v)].  A parsed object inherits [Object.prototype.toString]
    unless it has an own property of that name; the own property is a JSON
    value, hence not callable, and the conversion finds no primitive and
    throws.  An array joins the conversions of its elements, [null] counting
    as empty. *)
Fixpoint js_ToString (v : value) : result ustring :=
  match v with
  | JNull => Ok (lit "null")
  | JBool b => Ok (if b then lit "true" else lit "false")
  | JNum x => Ok (number_to_string x)
  | JStr s => Ok s
  | JArr l =>
    (fix items (l : list value) : result ustring :=
       match l with
       | [] => Ok []
       | x :: r =>
         sx ← (match x with JNull => Ok [] | _ => js_ToString x end);
         match r with
         | [] => Ok sx
         | _ => sr ← items r; Ok (sx ++ [44] ++ sr)
         end
       end) l
  | JObj kvs =>
    match assoc (lit "toString") kvs with
    | Some _ => Throw (TypeError "Cannot convert object to primitive value")
    | None => Ok (lit "[object Object]")
    end
  end.

(** *** The stack of the engine

    The conversion of an array to a string ([Array.prototype.join]) and
    [JSON.stringify] recurse on the nesting of the value.  An engine whose
    stack does not hold the recursion throws a [RangeError]; which values
    it holds is the engine's business.  ([JSON.parse] keeps its own stack
    and takes any nesting.) *)
Record engine : Type := {
  joins : value -> bool;
  prints : value -> bool
}.

Definition stack_overflow : js_error :=
  JsError (lit "RangeError") (lit "Maximum call stack size exceeded").

(** [ToString(v)] on the engine [E] *)
Definition ToString (E : engine) (v : value) : result ustring :=
  match v with
  | JArr _ => if joins E v then js_ToString v else Throw stack_overflow
  | _ => js_ToString v
  end.

(** [v.toString()]: the method call, which has no receiver in [null] and
    finds the own property of an object before the inherited method. *)
Definition toString (E : engine) (v : value) : result ustring :=
  match v with
  | JNull => Throw (TypeError "Cannot read properties of null")
  | JObj kvs =>
    match assoc (lit "toString") kvs with
    | Some _ => Throw (TypeError "toString is not a function")
    | None => Ok (lit "[object Object]")
    end
  | _ => ToString E v
  end.

(** ** [JSON.stringify] (one argument) *)

Definition hex_unit (n : N) : N := if n <? 10 then 48 + n else 87 + n.

Definition u_escape (c : N) : ustring :=
  [92; 117; hex_unit (c / 4096); hex_unit ((c / 256) mod 16);
   hex_unit ((c / 16) mod 16); hex_unit (c mod 16)].

Definition is_high_surrogate (c : N) : bool := (0xD800 <=? c) && (c <=? 0xDBFF).
Definition is_low_surrogate (c : N) : bool := (0xDC00 <=? c) && (c <=? 0xDFFF).

Fixpoint quote_body (s : ustring) : ustring :=
  match s with
  | [] => []
  | c :: r =>
    if c =? 8 then [92; 98] ++ quote_body r
    else if c =? 9 then [92; 116] ++ quote_body r
    else if c =? 10 then [92; 110] ++ quote_body r
    else if c =? 12 then [92; 102] ++ quote_body r
    else if c =? 13 then [92; 114] ++ quote_body r
    else if c =? 34 then [92; 34] ++ quote_body r
    else if c =? 92 then [92; 92] ++ quote_body r
    else if c <? 32 then u_escape c ++ quote_body r
    else if is_high_surrogate c then
      match r with
      | d :: r' =>
        if is_low_surrogate d then c :: d :: quote_body r'
        else u_escape c ++ quote_body r
      | [] => u_escape c
      end
    else if is_low_surrogate c then u_escape c ++ quote_body r
    else c :: quote_body r
  end.

(** [QuoteJSONString] *)
Definition quote (s : ustring) : ustring := [34] ++ quote_body s ++ [34].

Fixpoint stringify (v : value) : ustring :=
  match v with
  | JNull => lit "null"
  | JBool b => if b then lit "true" else lit "false"
  | JNum (Finite d) => num_to_string d
  | JNum (Infinity _) => lit "null"
  | JStr s => quote s
  | JArr l => [91] ++ join [44] (List.map stringify l) ++ [93]
  | JObj kvs =>
    [123]
    ++ join [44] (List.map (fun kv => quote (fst kv) ++ [58] ++ stringify (snd kv)) kvs)
    ++ [125]
  end.

(** [JSON.stringify(v)] on the engine [E].  The objects of fixed shape that
    the gateway prints itself (error bodies, the request to the provider)
    nest three deep at most and are printed with [stringify]. *)
Definition JSON_stringify (E : engine) (v : value) : result ustring :=
  if prints E v then Ok (stringify v) else Throw stack_overflow.

(** ** [JSON.parse]

    A recursive-descent reading of the JSON grammar.  Every function takes
    the text still to read and returns what it read with the rest. *)

Definition is_json_space (c : N) : bool :=
  (c =? 0x20) || (c =? 0x09) || (c =? 0x0A) || (c =? 0x0D).

Fixpoint skip_ws (s : ustring) : ustring :=
  match s with
  | [] => []
  | c :: r => if is_json_space c then skip_ws r else s
  end.

Definition is_digit (c : N) : bool := (48 <=? c) && (c <=? 57).

Definition hex_value (c : N) : option N :=
  if is_digit c then Some (c - 48)
  else if (97 <=? c) && (c <=? 102) then Some (c - 87)
  else if (65 <=? c) && (c <=? 70) then Some (c - 55)
  else None.

Definition simple_escape (c : N) : option N :=
  if c =? 34 then Some 34
  else if c =? 92 then Some 92
  else if c =? 47 then Some 47
  else if c =? 98 then Some 8
  else if c =? 102 then Some 12
  else if c =? 110 then Some 10
  else if c =? 114 then Some 13
  else if c =? 116 then Some 9
  else None.

(** The characters of a string literal after its opening quote, up to and
    including the closing quote. *)
Fixpoint parse_string_body (s : ustring) : option (ustring * ustring) :=
  match s with
  | [] => None
  | c :: r =>
    if c =? 34 then Some ([], r)
    else if c =? 92 then
      match r with
      | [] => None
      | e :: r1 =>
        if e =? 117 then
          match r1 with
          | h1 :: h2 :: h3 :: h4 :: r2 =>
            match hex_value h1, hex_value h2, hex_value h3, hex_value h4 with
            | Some a, Some b, Some c', Some d =>
              match parse_string_body r2 with
              | Some (t, rest) => Some ((a * 4096 + b * 256 + c' * 16 + d) :: t, rest)
              | None => None
              end
            | _, _, _, _ => None
            end
          | _ => None
          end
        else
          match simple_escape e with
          | Some u =>
            match parse_string_body r1 with
            | Some (t, rest) => Some (u :: t, rest)
            | None => None
            end
          | None => None
          end
      end
    else if c <? 32 then None
    else
      match parse_string_body r with
      | Some (t, rest) => Some (c :: t, rest)
      | None => None
      end
  end.

(** A run of decimal digits, as digit values. *)
Fixpoint span_digits (s : ustring) : list N * ustring :=
  match s with
  | [] => ([], [])
  | c :: r =>
    if is_digit c then
      let '(ds, rest) := span_digits r in ((c - 48) :: ds, rest)
    else ([], s)
  end.

Definition lex_int (s : ustring) : option (list N * ustring) :=
  match s with
  | [] => None
  | c :: r =>
    if c =? 48 then Some ([0], r)
    else if is_digit c then Some (span_digits s)
    else None
  end.

Definition lex_frac (s : ustring) : option (list N * ustring) :=
  match s with
  | c :: r =>
    if c =? 46 then
      match span_digits r with
      | ([], _) => None
      | (ds, rest) => Some (ds, rest)
      end
    else Some ([], s)
  | [] => Some ([], s)
  end.

Definition lex_exp_digits (neg : bool) (s : ustring) : option (Z * ustring) :=
  match span_digits s with
  | ([], _) => None
  | (ds, rest) =>
    let e := Z.of_N (digits_value ds) in
    Some (if neg then (- e)%Z else e, rest)
  end.

Definition lex_exp (s : ustring) : option (Z * ustring) :=
  match s with
  | c :: r =>
    if (c =? 101) || (c =? 69) then
      match r with
      | x :: r' =>
        if x =? 43 then lex_exp_digits false r'
        else if x =? 45 then lex_exp_digits true r'
        else lex_exp_digits false r
      | [] => None
      end
    else Some (0%Z, s)
  | [] => Some (0%Z, s)
  end.

Definition parse_number (s : ustring) : option (number * ustring) :=
  let '(neg, s1) :=
    match s with
    | c :: r => if c =? 45 then (true, r) else (false, s)
    | [] => (false, s)
    end in
  '(ip, s2) ← lex_int s1;
  '(fp, s3) ← lex_frac s2;
  '(e, s4) ← lex_exp s3;
  Some (number_of_literal neg ip fp e, s4).

Fixpoint strip_prefix (p s : ustring) : option ustring :=
  match p, s with
  | [], _ => Some s
  | a :: p', b :: s' => if a =? b then strip_prefix p' s' else None
  | _ :: _, [] => None
  end.

(** [ws string ws : value], one member of an object, given the parser of
    values. *)
Definition parse_member (pv : ustring -> option (value * ustring)) (s : ustring)
  : option ((ustring * value) * ustring) :=
  match skip_ws s with
  | c :: r =>
    if c =? 34 then
      '(k, r1) ← parse_string_body r;
      match skip_ws r1 with
      | c1 :: r2 =>
        if c1 =? 58 then '(v, r3) ← pv r2; Some ((k, v), r3) else None
      | [] => None
      end
    else None
  | [] => None
  end.

(** [parse_value] reads one value after optional white space;
    [parse_elems] and [parse_members] read what follows an element of an
    array and a member of an object, up to the closing bracket.  The fuel
    bounds the number of nested calls; every call is on a shorter text, so
    the length of the text is enough of it ([parse_value_fuel] below). *)
Fixpoint parse_value (fuel : nat) (s : ustring) {struct fuel}
  : option (value * ustring) :=
  match fuel with
  | O => None
  | S f =>
    match skip_ws s with
    | [] => None
    | c :: r =>
      if c =? 123 then
        match skip_ws r with
        | [] => None
        | c1 :: r1 =>
          if c1 =? 125 then Some (JObj [], r1)
          else
            '(kv, r2) ← parse_member (parse_value f) (c1 :: r1);
            '(kvs, r3) ← parse_members f r2;
            Some (JObj (fold_left (fun o kv => obj_set (fst kv) (snd kv) o) (kv :: kvs) []), r3)
        end
      else if c =? 91 then
        match skip_ws r with
        | [] => None
        | c1 :: r1 =>
          if c1 =? 93 then Some (JArr [], r1)
          else
            '(v, r2) ← parse_value f (c1 :: r1);
            '(vs, r3) ← parse_elems f r2;
            Some (JArr (v :: vs), r3)
        end
      else if c =? 34 then
        '(t, r1) ← parse_string_body r; Some (JStr t, r1)
      else if c =? 116 then
        r1 ← strip_prefix (lit "true") (c :: r); Some (JBool true, r1)
      else if c =? 102 then
        r1 ← strip_prefix (lit "false") (c :: r); Some (JBool false, r1)
      else if c =? 110 then
        r1 ← strip_prefix (lit "null") (c :: r); Some (JNull, r1)
      else
        '(x, r1) ← parse_number (c :: r); Some (JNum x, r1)
    end
  end
with parse_elems (fuel : nat) (s : ustring) {struct fuel}
  : option (list value * ustring) :=
  match fuel with
  | O => None
  | S f =>
    match skip_ws s with
    | [] => None
    | c :: r =>
      if c =? 93 then Some ([], r)
      else if c =? 44 then
        '(v, r1) ← parse_value f r;
        '(vs, r2) ← parse_elems f r1;
        Some (v :: vs, r2)
      else None
    end
  end
with parse_members (fuel : nat) (s : ustring) {struct fuel}
  : option (list (ustring * value) * ustring) :=
  match fuel with
  | O => None
  | S f =>
    match skip_ws s with
    | [] => None
    | c :: r =>
      if c =? 125 then Some ([], r)
      else if c =? 44 then
        '(kv, r1) ← parse_member (parse_value f) r;
        '(kvs, r2) ← parse_members f r1;
        Some (kv :: kvs, r2)
      else None
    end
  end.

(** [JSON.parse(s)]: one value, white space around it, nothing else.
    [None] stands for the [SyntaxError]. *)
Definition JSON_parse (s : ustring) : option value :=
  match parse_value (S (length s)) s with
  | Some (v, r) => match skip_ws r with [] => Some v | _ => None end
  | None => None
  end.


(** ** The platform and the state of the process

    [process.env], the clock and the network are given from outside; the
    network answers a request knowing how many were sent before it.  An
    exception of [fetch] (network failure, abort by the timer) and an
    exception of [res.text()] reach the caller of [callChatCompletion] the
    same way and are one outcome here. *)

Record environment : Type := {
  AI_PROVIDER : option ustring;
  MODEL_TEXT : option ustring;
  MODEL_TEXT_FALLBACK : option ustring;
  OPENROUTER_API_KEY : option ustring;
  OPENROUTER_BASE_URL : option ustring;
  OPENAI_API_KEY : option ustring;
  OPENAI_BASE_URL : option ustring
}.

Record fetch_request : Type := {
  f_url : ustring;
  f_authorization : ustring;
  f_body : ustring;
  f_timeout : Z
}.

Inductive fetch_outcome : Type :=
| FetchFails (e : js_error)
| FetchResponds (status : N) (text : ustring).

Record platform : Type := {
  env : environment;
  eng : engine;
  fetch : nat -> fetch_request -> fetch_outcome
}.

(** The arguments of one call of [callChatCompletion]. *)
Record chat_call : Type := {
  c_provider : ustring;
  c_model : ustring;
  c_system : ustring;
  c_user : ustring;
  c_temperature : number
}.

(** [RATE.buckets] holds one record per client. *)
Record bucket : Type := { start : Z; count : Z }.

(** What the function reads and changes: the clock ([Date.now()]), the
    bucket map, which outlives the invocation, and a record of what was
    done, in order: the request bodies handed to [JSON.parse], the calls of
    [callChatCompletion], the requests sent. *)
Record world : Type := {
  clock : Z;
  buckets : gmap ustring bucket;
  body_parses : list ustring;
  calls : list chat_call;
  fetches : list fetch_request
}.

(** A computation that reads and changes the world and returns or throws.
    What it changed before it threw stays changed. *)
Definition M (A : Type) : Type := world -> result A * world.

Global Instance M_ret : MRet M := fun _ a w => (Ok a, w).
Global Instance M_bind : MBind M := fun _ _ k m w =>
  match m w with
  | (Ok a, w') => k a w'
  | (Throw e, w') => (Throw e, w')
  end.

Definition throw {A} (e : js_error) : M A := fun w => (Throw e, w).

Definition lift {A} (r : result A) : M A := fun w => (r, w).

(** [try { m } catch (e) { h e }] *)
Definition try_catch {A} (m : M A) (h : js_error -> M A) : M A := fun w =>
  match m w with
  | (Ok a, w') => (Ok a, w')
  | (Throw e, w') => h e w'
  end.

(** ** The gateway *)

Definition DEFAULT_TIMEOUT_MS : Z := 25000.
Definition MAX_BODY_CHARS : Z := 250000.

Definition RATE_windowMs : Z := 60000.
Definition RATE_max : Z := 40.

Definition now : M Z := fun w => (Ok (clock w), w).

Definition corsHeaders (origin : option ustring) : list (ustring * ustring) :=
  let allow := str_or origin (lit "*") in
  [ (lit "Access-Control-Allow-Origin", allow);
    (lit "Vary", lit "Origin");
    (lit "Access-Control-Allow-Headers", lit "Content-Type, Authorization");
    (lit "Access-Control-Allow-Methods", lit "POST, OPTIONS") ].

(** [RATE.buckets.get(ip)] and [RATE.buckets.set(ip, b)] *)
Definition buckets_get (ip : ustring) : M (option bucket) :=
  fun w => (Ok (buckets w !! ip), w).

Definition buckets_set (ip : ustring) (b : bucket) : M unit :=
  fun w => (Ok tt, {| clock := clock w; buckets := <[ip := b]> (buckets w);
                      body_parses := body_parses w;
                      calls := calls w; fetches := fetches w |}).

(** The bucket found in the map is changed in place and stored again under
    its key; a record of the new contents stands for it. *)
Definition rateLimit (ip : ustring) : M bool :=
  t ← now;
  found ← buckets_get ip;
  let b := default {| start := t; count := 0 |} found in
  let b := if (t - start b >? RATE_windowMs)%Z
           then {| start := t; count := 0 |} else b in
  let b := {| start := start b; count := (count b + 1)%Z |} in
  _ ← buckets_set ip b;
  mret (count b <=? RATE_max)%Z.

Definition safeJsonParse (str : ustring) : value :=
  match JSON_parse str with Some v => v | None => JNull end.

(** [safeJsonParse(rawBody)] in the handler, which leaves a note in the
    record of the world. *)
Definition parse_body (rawBody : ustring) : M value :=
  fun w => (Ok (safeJsonParse rawBody),
            {| clock := clock w; buckets := buckets w;
               body_parses := body_parses w ++ [rawBody];
               calls := calls w; fetches := fetches w |}).

(** [s ?? ''] then [.toString()]: a value that is absent or [null] counts as
    the empty string. *)
Definition clampString (E : engine) (s : option value) (max : Z) : result ustring :=
  x ← toString E (match s with Some JNull | None => JStr [] | Some v => v end);
  if (str_length x <=? max)%Z then Ok x else Ok (slice0 max x).

Inductive lang : Type := ar | en.

Record prompts : Type := { system : ustring; user : ustring }.

(** The first statement of [buildPrompts]:
    [(meta?.lang || payload?.lang || 'ar').toString().toLowerCase()
       .startsWith('en') ? 'en' : 'ar'] *)
Definition locale (E : engine) (payload meta : option value) : result lang :=
  l ← toString E (js_or_else (js_or (oget meta "lang") (oget payload "lang"))
                  (JStr (lit "ar")));
  Ok (if startsWith (lit "en") (toLowerCase l) then en else ar).

(** The rest of [buildPrompts], with [lang] bound. *)
Definition prompts_for (E : engine) (lang : lang) (task : ustring)
    (payload : option value) : result (option prompts) :=
  if decide (task = lit "panorama_json_to_report") then
    let findings :=
      js_or_else (js_or (oget payload "findings") (oget payload "items")) (JArr []) in
    let summary := js_or_else (oget payload "summary") (JObj []) in
    let system :=
      match lang with
      | ar => lit "أنت مساعد أشعة أسنان محترف. اكتب تقرير أشعة بانوراما طبي منظم بناءً على نتائج ذكاء اصطناعي (قائمة Findings). لا تخترع بيانات غير موجودة. أخرج JSON فقط."
      | en => lit "You are a professional dental radiology assistant. Write a structured panoramic radiology report based on AI findings. Do not hallucinate. Output JSON only."
      end in
    let user := JObj [
      (lit "instruction", JStr
        match lang with
        | ar => lit "حوّل بيانات الـAI إلى تقرير طبي احترافي (Findings/Impression/Recommendations). استخدم لغة علمية واضحة. لو البيانات غير كافية، اذكر ذلك صراحة."
        | en => lit "Convert AI output into a professional report (Findings/Impression/Recommendations). If data is insufficient, state that explicitly."
        end);
      (lit "schema", JObj [
        (lit "findings", JStr (lit "string (multi-line)"));
        (lit "impression", JStr (lit "string (multi-line)"));
        (lit "recommendations", JStr (lit "string (multi-line)")) ]);
      (lit "input", JObj [
        (lit "findings", findings);
        (lit "summary", summary) ]) ] in
    user ← JSON_stringify E user;
    Ok (Some {| system := system; user := user |})
  else if decide (task = lit "ceph_treatment_planner") then
    let ceph :=
      js_or_else
        (js_or (js_or (oget payload "ceph") (oget payload "measurements")) payload)
        (JObj []) in
    let system :=
      match lang with
      | ar => lit "أنت أخصائي تقويم أسنان. استنتج خطة علاج تقويمية بناءً على التحاليل القياسية. لا تذكر أدوية. لا تؤكد تشخيصات غير مدعومة. أخرج JSON فقط."
      | en => lit "You are an orthodontic specialist. Propose an orthodontic treatment plan from cephalometric analyses. Output JSON only."
      end in
    let user := JObj [
      (lit "instruction", JStr
        match lang with
        | ar => lit "اكتب خطة علاج تقويمية منظمة من مراحل، أهداف، خيارات أجهزة، Anchorage، مخاطر ومتابعة. التزم بالبيانات. لو ناقصة، اطلب ما يلزم."
        | en => lit "Write a structured orthodontic plan: objectives, phases, appliance options, anchorage, risks/consent, follow-up. Ask for missing critical data."
        end);
      (lit "schema", JObj [
        (lit "diagnostic_summary", JStr (lit "string"));
        (lit "problem_list", JStr (lit "array of strings"));
        (lit "objectives", JStr (lit "array of strings"));
        (lit "plan_phases", JStr (lit "array of {name, steps[]}"));
        (lit "appliance_options", JStr (lit "array of strings"));
        (lit "anchorage", JStr (lit "string"));
        (lit "risks_and_consents", JStr (lit "array of strings"));
        (lit "follow_up", JStr (lit "array of strings")) ]);
      (lit "input", ceph) ] in
    user ← JSON_stringify E user;
    Ok (Some {| system := system; user := user |})
  else if decide (task = lit "voice_to_report") then
    transcript ← toString E
      (js_or_else (js_or (oget payload "transcript") (oget payload "text")) (JStr []));
    template ← toString E (js_or_else (oget payload "template") (JStr []));
    let system :=
      match lang with
      | ar => lit "أنت محرر تقارير أشعة. حوّل إملاء الطبيب إلى تقرير طبي منظم. لا تخترع نتائج. أخرج JSON فقط."
      | en => lit "You are a radiology report editor. Turn dictated text into a structured report. Output JSON only."
      end in
    let user := JObj [
      (lit "instruction", JStr
        match lang with
        | ar => lit "نظّف النص، صحح الأخطاء، واكتب تقريرًا احترافيًا. قسّم إلى Findings و Impression و Recommendations. حافظ على نفس المعنى."
        | en => lit "Polish the text and produce a professional report. Split into Findings/Impression/Recommendations."
        end);
      (lit "template", JStr template);
      (lit "schema", JObj [
        (lit "findings", JStr (lit "string"));
        (lit "impression", JStr (lit "string"));
        (lit "recommendations", JStr (lit "string")) ]);
      (lit "input", JStr transcript) ] in
    Ok (Some {| system := system; user := stringify user |})
  else if decide (task = lit "ask_radiology") then
    q ← toString E
      (js_or_else (js_or (oget payload "question") (oget payload "q")) (JStr []));
    let system :=
      match lang with
      | ar => lit "أنت مساعد أشعة أسنان. أجب بشكل علمي، مختصر، وتجنب الهلوسة. إذا السؤال يحتاج معلومات إضافية اطلبها. أخرج JSON فقط."
      | en => lit "You are a dental radiology assistant. Answer scientifically and concisely. Ask for missing details. Output JSON only."
      end in
    let user := JObj [
      (lit "instruction", JStr
        match lang with
        | ar => lit "أجب عن السؤال. اذكر نقاط عملية للطبيب. إذا هناك حدود للـAI، اذكرها."
        | en => lit "Answer the question with practical points. Mention limits if relevant."
        end);
      (lit "schema", JObj [
        (lit "answer", JStr (lit "string"));
        (lit "follow_up_questions", JStr (lit "array of strings")) ]);
      (lit "input", JStr q) ] in
    Ok (Some {| system := system; user := stringify user |})
  else Ok None.

Definition buildPrompts (E : engine) (task : ustring) (payload meta : option value)
  : result (option prompts) :=
  lang ← locale E payload meta;
  prompts_for E lang task payload.

Definition log_call (c : chat_call) : M unit :=
  fun w => (Ok tt, {| clock := clock w; buckets := buckets w;
                      body_parses := body_parses w;
                      calls := calls w ++ [c]; fetches := fetches w |}).

(** [fetchWithTimeout(url, opts, timeoutMs)] followed by [res.text()]: the
    request goes out, the network decides.  The timer aborts the request
    when it fires first, which is one of the ways the network fails. *)
Definition fetchWithTimeout (P : platform) (rq : fetch_request) : M (N * ustring) :=
  fun w =>
    let w' := {| clock := clock w; buckets := buckets w;
                 body_parses := body_parses w;
                 calls := calls w; fetches := fetches w ++ [rq] |} in
    match fetch P (length (fetches w)) rq with
    | FetchFails e => (Throw e, w')
    | FetchResponds status text => (Ok (status, text), w')
    end.

Record chat_out : Type := { raw : option value; usage : option value }.

Definition str_truthy (o : option ustring) : bool :=
  match o with Some (_ :: _) => true | _ => false end.

(** [res.ok] *)
Definition status_ok (status : N) : bool := (200 <=? status) && (status <=? 299).

(** [(data && (data.error?.message || data.error || data.message))
     || `Upstream error: ${res.status}`] *)
Definition upstream_error_message (data : value) (status : N) : value :=
  js_or_else
    (if truthy data
     then js_or (js_or (oget (get data "error") "message") (get data "error"))
                (get data "message")
     else Some data)
    (JStr (lit "Upstream error: " ++ N_to_string status)).

(** [new Error(v)] converts its argument to a string. *)
Definition new_Error (E : engine) (v : value) : result js_error :=
  m ← ToString E v; Ok (Error m).

(** The body of either provider branch of [callChatCompletion]; the two are
    the same text up to the names of the environment variables and the
    default base URL. *)
Definition chat_request (P : platform) (apiKey baseUrl : option ustring)
    (default_url : ustring) (missing : ustring) (c : chat_call) : M chat_out :=
  let baseUrl := str_or baseUrl default_url in
  if negb (str_truthy apiKey) then throw (Error missing)
  else
    '(status, text) ← fetchWithTimeout P {|
        f_url := baseUrl ++ lit "/chat/completions";
        f_authorization := lit "Bearer " ++ default [] apiKey;
        f_body := stringify (JObj [
          (lit "model", JStr (c_model c));
          (lit "messages", JArr [
            JObj [(lit "role", JStr (lit "system")); (lit "content", JStr (c_system c))];
            JObj [(lit "role", JStr (lit "user")); (lit "content", JStr (c_user c))] ]);
          (lit "temperature", JNum (c_temperature c)) ]);
        f_timeout := DEFAULT_TIMEOUT_MS |};
    let data := safeJsonParse text in
    if negb (status_ok status) then
      e ← lift (new_Error (eng P) (upstream_error_message data status));
      throw e
    else
      let content :=
        js_or_else (oget (oget (get0 (get data "choices")) "message") "content")
                   (JStr []) in
      mret {| raw := Some content; usage := get data "usage" |}.

Definition callChatCompletion (P : platform) (c : chat_call) : M chat_out :=
  _ ← log_call c;
  if decide (c_provider c = lit "openrouter") then
    chat_request P (OPENROUTER_API_KEY (env P)) (OPENROUTER_BASE_URL (env P))
      (lit "https://openrouter.ai/api/v1") (lit "Server missing OPENROUTER_API_KEY") c
  else if decide (c_provider c = lit "openai") then
    chat_request P (OPENAI_API_KEY (env P)) (OPENAI_BASE_URL (env P))
      (lit "https://api.openai.com/v1") (lit "Server missing OPENAI_API_KEY") c
  else throw (Error (lit "Unknown AI_PROVIDER")).

(** [s.match(/\{[\s\S]*\}/)]: from the first opening brace to the last
    closing brace after it. *)
Fixpoint from_open_brace (s : ustring) : option ustring :=
  match s with
  | [] => None
  | c :: r => if c =? 123 then Some r else from_open_brace r
  end.

Fixpoint upto_last_close (s : ustring) : option ustring :=
  match s with
  | [] => None
  | c :: r =>
    match upto_last_close r with
    | Some p => Some (c :: p)
    | None => if c =? 125 then Some [c] else None
    end
  end.

Definition match_braces (s : ustring) : option ustring :=
  r ← from_open_brace s; p ← upto_last_close r; Some (123 :: p).

(** The extractor returns [null] or a truthy value. *)
Definition extractJson (E : engine) (raw : option value) : result value :=
  s0 ← toString E (js_or_else raw (JStr []));
  let s := trim s0 in
  match s with
  | [] => Ok JNull
  | _ =>
    let direct := safeJsonParse s in
    if truthy direct then Ok direct
    else
      match match_braces s with
      | Some m0 =>
        let inner := safeJsonParse m0 in
        if truthy inner then Ok inner else Ok JNull
      | None => Ok JNull
      end
  end.

(** The event of the hosting platform, and the response handed back. *)
Record event : Type := {
  httpMethod : ustring;
  headers : option (list (ustring * ustring));
  body : option ustring
}.

Record response : Type := {
  statusCode : Z;
  res_headers : list (ustring * ustring);
  res_body : ustring
}.

Record run_out : Type := {
  parsed : value;
  run_usage : option value;
  run_raw : option value
}.

(** [run(modelName)], the closure inside the handler, with the variables it
    captures as arguments. *)
Definition run (P : platform) (provider : ustring) (p : prompts)
    (temperature : number) (modelName : ustring) : M run_out :=
  out ← callChatCompletion P {|
      c_provider := provider; c_model := modelName;
      c_system := system p; c_user := user p; c_temperature := temperature |};
  parsed ← lift (extractJson (eng P) (raw out));
  if negb (truthy parsed) then
    clamped ← lift (clampString (eng P) (raw out) 50000);
    mret {| parsed := JObj [(lit "raw", JStr clamped)];
            run_usage := usage out; run_raw := raw out |}
  else
    mret {| parsed := parsed; run_usage := usage out; run_raw := raw out |}.

Definition error_body (msg : string) : ustring :=
  stringify (JObj [(lit "ok", JBool false); (lit "error", JStr (lit msg))]).

(** The handler has two stages.  The first checks the method, the rate, the
    size and the body and builds the prompts; it either answers at once or
    hands the request on to the second, which calls the models. *)
Inductive stage : Type :=
| Early (r : response)
| Proceed (hs : list (ustring * ustring)) (task : ustring) (payload : value)
          (p : prompts).

(** [{ ...corsHeaders(origin), 'Content-Type': ... }] with
    [origin = event.headers?.origin || event.headers?.Origin] *)
Definition response_headers (ev : event) : list (ustring * ustring) :=
  let origin :=
    match headers ev ≫= assoc (lit "origin") with
    | Some (c :: s) => Some (c :: s)
    | _ => headers ev ≫= assoc (lit "Origin")
    end in
  corsHeaders origin
  ++ [(lit "Content-Type", lit "application/json; charset=utf-8")].

(** [h['x-nf-client-connection-ip'] || h['client-ip'] || h['x-forwarded-for']
     || 'unknown'] *)
Definition client_ip (h : list (ustring * ustring)) : ustring :=
  str_or (assoc (lit "x-nf-client-connection-ip") h)
    (str_or (assoc (lit "client-ip") h)
       (str_or (assoc (lit "x-forwarded-for") h) (lit "unknown"))).

Definition validate (P : platform) (ev : event) : M stage :=
  let hs := response_headers ev in
  if decide (httpMethod ev = lit "OPTIONS") then
    mret (Early {| statusCode := 204; res_headers := hs; res_body := [] |})
  else if decide (httpMethod ev <> lit "POST") then
    mret (Early {| statusCode := 405; res_headers := hs;
                   res_body := error_body "Method Not Allowed" |})
  else
    match headers ev with
    | None => throw (TypeError "Cannot read properties of undefined")
    | Some h =>
      let ip := client_ip h in
      allowed ← rateLimit ip;
      if negb allowed then
        mret (Early {| statusCode := 429; res_headers := hs;
                       res_body := error_body "Rate limit exceeded" |})
      else
        let rawBody := str_or (body ev) [] in
        if (str_length rawBody >? MAX_BODY_CHARS)%Z then
          mret (Early {| statusCode := 413; res_headers := hs;
                         res_body := error_body "Payload too large" |})
        else
          req ← parse_body rawBody;
          if negb (truthy req) then
            mret (Early {| statusCode := 400; res_headers := hs;
                           res_body := error_body "Invalid JSON" |})
          else
            task0 ← lift (toString (eng P) (js_or_else (get req "task") (JStr [])));
            let task := trim task0 in
            let payload := js_or_else (get req "payload") (JObj []) in
            let meta := js_or_else (get req "meta") (JObj []) in
            built ← lift (buildPrompts (eng P) task (Some payload) (Some meta));
            match built with
            | None =>
              mret (Early {| statusCode := 400; res_headers := hs;
                             res_body := error_body "Unknown task" |})
            | Some p => mret (Proceed hs task payload p)
            end
    end.

Definition primary_model (P : platform) : ustring :=
  str_or (MODEL_TEXT (env P)) (lit "google/gemma-3-12b-it:free").

Definition fallback_model (P : platform) : ustring :=
  str_or (MODEL_TEXT_FALLBACK (env P)) (lit "google/gemma-3-4b-it:free").

Definition provider_of (P : platform) : ustring :=
  toLowerCase (str_or (AI_PROVIDER (env P)) (lit "openrouter")).

(** [typeof payload.temperature === 'number' ? payload.temperature : 0.2] *)
Definition temperature_of (payload : value) : number :=
  match get payload "temperature" with
  | Some (JNum x) => x
  | _ => dec_0_2
  end.

Definition respond (P : platform) (hs : list (ustring * ustring))
    (task : ustring) (payload : value) (p : prompts) : M response :=
  let provider := provider_of P in
  let model := primary_model P in
  let fallback := fallback_model P in
  let temperature := temperature_of payload in
  try_catch
    (result ← try_catch (run P provider p temperature model)
                (fun _ => run P provider p temperature fallback);
     body ← lift (JSON_stringify (eng P) (JObj [
               (lit "ok", JBool true);
               (lit "task", JStr task);
               (lit "provider", JStr provider);
               (lit "model_used", JStr model);
               (lit "result", parsed result);
               (lit "usage", js_or_else (run_usage result) JNull) ]));
     mret {| statusCode := 200; res_headers := hs; res_body := body |})
    (fun e =>
     mret {| statusCode := 502; res_headers := hs;
             res_body := stringify (JObj [
               (lit "ok", JBool false);
               (lit "error", JStr (lit "AI upstream error"));
               (lit "details", JStr (String_of_error e)) ]) |}).

Definition handler (P : platform) (ev : event) : M response :=
  st ← validate P ev;
  match st with
  | Early r => mret r
  | Proceed hs task payload p => respond P hs task payload p
  end.

(** ** Vocabulary of the statements *)

(** The world as a call finds it when the clock reads [t]. *)
Definition at_time (t : Z) (w : world) : world :=
  {| clock := t; buckets := buckets w; body_parses := body_parses w;
     calls := calls w; fetches := fetches w |}.

(** The answers of [rateLimit ip] called at the times [ts], one call after
    the other on the same process. *)
Fixpoint rateLimit_at (ip : ustring) (ts : list Z) (w : world) : list bool * world :=
  match ts with
  | [] => ([], w)
  | t :: ts' =>
    match rateLimit ip (at_time t w) with
    | (Ok a, w') => let '(r, w'') := rateLimit_at ip ts' w' in (a :: r, w'')
    | (Throw _, w') => ([], w')
    end
  end.

(** The world after [RATE.buckets.set(ip, b)]. *)
Definition with_bucket (ip : ustring) (b : bucket) (w : world) : world :=
  {| clock := clock w; buckets := <[ip := b]> (buckets w);
     body_parses := body_parses w; calls := calls w; fetches := fetches w |}.

(** A decimal in normal form: no zero digit at either end, zero written
    without digits, sign or exponent. *)
Definition dec_normal (d : dec) : Prop :=
  match ddigits d with
  | [] => dneg d = false /\ dpoint d = 0%Z
  | d1 :: ds =>
    Forall (fun x => x <= 9) (d1 :: ds) /\ d1 <> 0 /\ List.last (d1 :: ds) 0 <> 0
  end.

(** The decimal of a double: in normal form, and the one that stands for
    the double it reads as. *)
Definition dec_wf (d : dec) : Prop :=
  dec_normal d /\ Number_of_dec d = Finite d.

(** A number as [JSON.parse] makes them. *)
Definition number_wf (x : number) : Prop :=
  match x with
  | Finite d => dec_wf d
  | Infinity _ => True
  end.

(** A number that JSON can write. *)
Definition number_finite (x : number) : Prop :=
  match x with
  | Finite _ => True
  | Infinity _ => False
  end.


(** Keys in the order of enumeration: no key would go before an earlier
    one; and keys of an object: distinct and in that order. *)
Fixpoint key_order (ks : list ustring) : Prop :=
  match ks with
  | [] => True
  | k' :: r => Forall (fun k => precedes k k' = false) r /\ key_order r
  end.

Definition keys_ok (ks : list ustring) : Prop := NoDup ks /\ key_order ks.

(** A value as [JSON.parse] builds them: its numbers are doubles, the keys
    of its objects are distinct and in the order of enumeration. *)
Fixpoint parsed_value (v : value) : Prop :=
  match v with
  | JNull | JBool _ | JStr _ => True
  | JNum x => number_wf x
  | JArr l => fold_right (fun x acc => parsed_value x /\ acc) True l
  | JObj kvs =>
    keys_ok (List.map fst kvs)
    /\ fold_right (fun kv acc => parsed_value (snd kv) /\ acc) True kvs
  end.

(** A value that JSON can write: a value as [JSON.parse] builds them with
    no [Infinity] in it, which [JSON.stringify] prints as [null]. *)
Fixpoint wf_value (v : value) : Prop :=
  match v with
  | JNull | JBool _ | JStr _ => True
  | JNum x => number_wf x /\ number_finite x
  | JArr l => fold_right (fun x acc => wf_value x /\ acc) True l
  | JObj kvs =>
    keys_ok (List.map fst kvs)
    /\ fold_right (fun kv acc => wf_value (snd kv) /\ acc) True kvs
  end.





(** The call of [callChatCompletion] that [run(modelName)] makes for a
    request. *)
Definition call_for (P : platform) (payload : value) (p : prompts)
    (modelName : ustring) : chat_call :=
  {| c_provider := provider_of P; c_model := modelName;
     c_system := system p; c_user := user p;
     c_temperature := temperature_of payload |}.

(** Where the calls for a provider go and with which key: nowhere when the
    provider is unknown or has no key. *)
Definition endpoint (P : platform) (provider : ustring) : option (ustring * ustring) :=
  if decide (provider = lit "openrouter") then
    match OPENROUTER_API_KEY (env P) with
    | Some (c :: key) =>
      Some (str_or (OPENROUTER_BASE_URL (env P)) (lit "https://openrouter.ai/api/v1"),
            c :: key)
    | _ => None
    end
  else if decide (provider = lit "openai") then
    match OPENAI_API_KEY (env P) with
    | Some (c :: key) =>
      Some (str_or (OPENAI_BASE_URL (env P)) (lit "https://api.openai.com/v1"), c :: key)
    | _ => None
    end
  else None.

(** The request that carries the call [c] to the endpoint [(base, key)]:
    a POST to the chat-completions path with the key as bearer, the time
    limit of 25 seconds, and a body that is JSON for the model name, the
    system and the user message and the temperature. *)
Definition request_for (c : chat_call) (to : ustring * ustring) : fetch_request :=
  {| f_url := fst to ++ lit "/chat/completions";
     f_authorization := lit "Bearer " ++ snd to;
     f_body := stringify (JObj [
       (lit "model", JStr (c_model c));
       (lit "messages", JArr [
         JObj [(lit "role", JStr (lit "system")); (lit "content", JStr (c_system c))];
         JObj [(lit "role", JStr (lit "user")); (lit "content", JStr (c_user c))] ]);
       (lit "temperature", JNum (c_temperature c)) ]);
     f_timeout := 25000 |}.

(** The requests that go out for the calls [cs], in order. *)
Definition requests_for (P : platform) (cs : list chat_call) : list fetch_request :=
  flat_map (fun c => option_list (request_for c <$> endpoint P (c_provider c))) cs.

(** The text of the model in the body [text] of an upstream answer:
    [choices[0].message.content], the empty string when that is missing or
    falsy. *)
Definition message_content (text : ustring) : value :=
  js_or_else
    (oget (oget (get0 (get (safeJsonParse text) "choices")) "message") "content")
    (JStr []).

(** The object of a 200 response and its print. *)
Definition success_value (P : platform) (task : ustring) (model_used : ustring)
    (out : run_out) : value :=
  JObj [
    (lit "ok", JBool true);
    (lit "task", JStr task);
    (lit "provider", JStr (provider_of P));
    (lit "model_used", JStr model_used);
    (lit "result", parsed out);
    (lit "usage", js_or_else (run_usage out) JNull) ].

Definition success_body (P : platform) (task : ustring) (model_used : ustring)
    (out : run_out) : ustring :=
  stringify (success_value P task model_used out).

(** The body of the 502 response for the error [e]. *)
Definition upstream_failure_body (e : js_error) : ustring :=
  stringify (JObj [
    (lit "ok", JBool false);
    (lit "error", JStr (lit "AI upstream error"));
    (lit "details", JStr (String_of_error e)) ]).

(** A computation that leaves the record of calls alone. *)
Definition keeps_calls {A} (m : M A) : Prop :=
  forall w r w', m w = (r, w') -> calls w' = calls w.


(** ** Sample requests and upstreams *)

(** A deployment configured for OpenRouter, with the default models. *)
Definition env_openrouter : environment :=
  {| AI_PROVIDER := None; MODEL_TEXT := None; MODEL_TEXT_FALLBACK := None;
     OPENROUTER_API_KEY := Some (lit "sk-or-test"); OPENROUTER_BASE_URL := None;
     OPENAI_API_KEY := None; OPENAI_BASE_URL := None |}.

(** The nesting of a value, and an engine whose stack holds a thousand
    levels of it. *)
Fixpoint depth (v : value) : nat :=
  match v with
  | JArr l => S (fold_right (fun x acc => Nat.max (depth x) acc) O l)
  | JObj kvs => S (fold_right (fun kv acc => Nat.max (depth (snd kv)) acc) O kvs)
  | _ => O
  end.

Definition engine_1000 : engine :=
  {| joins := fun v => (depth v <=? 1000)%nat;
     prints := fun v => (depth v <=? 1000)%nat |}.

(** A process that has served nothing yet. *)
Definition fresh : world :=
  {| clock := 1000%Z; buckets := ∅; body_parses := []; calls := []; fetches := [] |}.

Definition post (b : ustring) : event :=
  {| httpMethod := lit "POST";
     headers := Some [(lit "x-forwarded-for", lit "203.0.113.7")];
     body := Some b |}.

Definition ask : event :=
  post (qlit "{'task':'ask_radiology','payload':{'question':'What is a periapical lesion?'}}").

(** An upstream answer with status 200 whose message content is [content]. *)
Definition completion (content : ustring) : fetch_outcome :=
  FetchResponds 200
    (stringify (JObj [(lit "choices",
       JArr [JObj [(lit "message", JObj [(lit "content", JStr content)])]])])).

(** The primary call meets HTTP 500, the fallback call an answer. *)
Definition P_500_then_ok : platform :=
  {| env := env_openrouter; eng := engine_1000;
     fetch := fun i _ =>
       match i with
       | O => FetchResponds 500 (qlit "{'error':{'message':'overloaded'}}")
       | _ => completion (qlit "{'answer':'A radiolucency at the apex.','follow_up_questions':[]}")
       end |}.

(** The primary call is aborted by the timer, the fallback call meets HTTP
    503. *)
Definition P_both_fail : platform :=
  {| env := env_openrouter; eng := engine_1000;
     fetch := fun i _ =>
       match i with
       | O => FetchFails (JsError (lit "AbortError") (lit "This operation was aborted"))
       | _ => FetchResponds 503 (lit "Service Unavailable")
       end |}.

(** The model answers with the text [5]. *)
Definition P_scalar : platform :=
  {| env := env_openrouter; eng := engine_1000;
     fetch := fun _ _ => completion (lit "5") |}.

(** The model answers in prose. *)
Definition P_prose : platform :=
  {| env := env_openrouter; eng := engine_1000;
     fetch := fun _ _ => completion (lit "I cannot answer that.") |}.

(** The model answers with a numeral beyond the largest double. *)
Definition P_huge : platform :=
  {| env := env_openrouter; eng := engine_1000;
     fetch := fun _ _ => completion (lit "1e400") |}.

(** A process in which the sample client has used up its window. *)
Definition exhausted : world :=
  {| clock := 1000%Z;
     buckets := {[ lit "203.0.113.7" := {| start := 0%Z; count := 40%Z |} ]};
     body_parses := []; calls := []; fetches := [] |}.

(** A body of 250001 characters. *)
Definition oversized : ustring := repeat 120 (N.to_nat 250001).

(** The world after the handler has parsed the body [s]. *)
Definition with_body_parse (s : ustring) (w : world) : world :=
  {| clock := clock w; buckets := buckets w;
     body_parses := body_parses w ++ [s]; calls := calls w; fetches := fetches w |}.

(* ===================================================================== *)
(** * Part II.  Properties *)
(* ===================================================================== *)

(** ** The rate limiter *)

Section RateLimiter.

Implicit Types (ip : ustring) (w : world) (b : bucket) (t : Z).

Lemma rateLimit_fresh ip w :
  buckets w !! ip = None ->
  rateLimit ip w = (Ok true, with_bucket ip {| start := clock w; count := 1%Z |} w).
Proof.
  intros Hnone. unfold rateLimit, now, buckets_get, buckets_set, mbind, M_bind, mret, M_ret.
  rewrite Hnone. cbn.
  replace (clock w - clock w >? RATE_windowMs)%Z with false
    by (unfold RATE_windowMs; symmetry; rewrite Z.gtb_ltb; apply Z.ltb_ge; lia).
  reflexivity.
Qed.

Lemma rateLimit_within ip w b :
  buckets w !! ip = Some b ->
  (clock w - start b <= RATE_windowMs)%Z ->
  rateLimit ip w
  = (Ok (count b + 1 <=? RATE_max)%Z,
     with_bucket ip {| start := start b; count := (count b + 1)%Z |} w).
Proof.
  intros Hb Hin. unfold rateLimit, now, buckets_get, buckets_set, mbind, M_bind, mret, M_ret.
  rewrite Hb. cbn.
  replace (clock w - start b >? RATE_windowMs)%Z with false
    by (symmetry; rewrite Z.gtb_ltb; apply Z.ltb_ge; lia).
  reflexivity.
Qed.

Lemma rateLimit_elapsed ip w b :
  buckets w !! ip = Some b ->
  (clock w - start b > RATE_windowMs)%Z ->
  rateLimit ip w = (Ok true, with_bucket ip {| start := clock w; count := 1%Z |} w).
Proof.
  intros Hb Hout. unfold rateLimit, now, buckets_get, buckets_set, mbind, M_bind, mret, M_ret.
  rewrite Hb. cbn.
  replace (clock w - start b >? RATE_windowMs)%Z with true
    by (symmetry; rewrite Z.gtb_ltb; apply Z.ltb_lt; lia).
  reflexivity.
Qed.

(** Calls that all fall into the window of the bucket count upwards. *)
Lemma rateLimit_at_window ip ts : forall w s c,
  buckets w !! ip = Some {| start := s; count := c |} ->
  Forall (fun t => t - s <= RATE_windowMs)%Z ts ->
  (rateLimit_at ip ts w).1
  = List.map (fun i => (c + Z.of_nat i + 1 <=? RATE_max)%Z) (seq 0 (length ts)).
Proof.
  induction ts as [|t ts IH]; intros w s c Hb Hts; [reflexivity|].
  inversion Hts as [|? ? Ht Hts']; subst.
  cbn [rateLimit_at].
  rewrite (rateLimit_within ip (at_time t w) _ Hb) by (cbn; exact Ht).
  cbn [start count].
  destruct (rateLimit_at ip ts _) as [r w''] eqn:E.
  cbn [fst length seq List.map]. f_equal.
  - f_equal. lia.
  - change r with (r, w'').1. rewrite <- E.
    erewrite IH; [| cbn; apply lookup_insert_eq | exact Hts'].
    rewrite <- seq_shift, List.map_map.
    apply List.map_ext. intros i. f_equal. lia.
Qed.

End RateLimiter.

(** C5.  Window 60000 ms, at most 40 requests.  A client calls at [t0],
    when the limiter has no bucket for it or the window of its bucket has
    elapsed, and then at the times [ts], none later than the end of the
    window opened at [t0]: the call number [i] (from 0) is allowed exactly
    when [i < 40], so the first 40 are allowed and the 41st is refused.  A call
    that finds a bucket whose window has elapsed resets it (start to now, count
    to zero, then one) and is allowed. *)
Theorem rateLimit_window :
  RATE_windowMs = 60000%Z /\ RATE_max = 40%Z /\
  (forall ip w t0 ts,
      (forall b, buckets w !! ip = Some b -> (t0 - start b > 60000)%Z) ->
      Forall (fun t => t - t0 <= 60000)%Z ts ->
      (rateLimit_at ip (t0 :: ts) w).1
      = List.map (fun i => bool_decide (i < 40)%nat) (seq 0 (S (length ts)))) /\
  (forall ip w b,
      buckets w !! ip = Some b ->
      (clock w - start b > 60000)%Z ->
      rateLimit ip w
      = (Ok true, with_bucket ip {| start := clock w; count := (0 + 1)%Z |} w)).
Proof.
  split; [reflexivity|]. split; [reflexivity|]. split.
  - intros ip w t0 ts Hb Hts.
    cbn [rateLimit_at].
    assert (Hfirst : rateLimit ip (at_time t0 w)
                     = (Ok true, with_bucket ip {| start := t0; count := 1%Z |}
                                   (at_time t0 w))).
    { destruct (buckets w !! ip) as [b|] eqn:E.
      - apply (rateLimit_elapsed ip (at_time t0 w) b); [exact E|].
        cbn [clock at_time]. unfold RATE_windowMs. now apply Hb.
      - now apply rateLimit_fresh. }
    rewrite Hfirst.
    destruct (rateLimit_at ip ts _) as [r w''] eqn:E.
    cbn [fst length seq List.map]. f_equal.
    change r with (r, w'').1. rewrite <- E.
    erewrite rateLimit_at_window; [| cbn; apply lookup_insert_eq | exact Hts].
    rewrite <- seq_shift, List.map_map.
    apply List.map_ext. intros i.
    unfold RATE_max. symmetry.
    destruct (1 + Z.of_nat i + 1 <=? 40)%Z eqn:Hle.
    + apply bool_decide_eq_true. apply Z.leb_le in Hle. lia.
    + apply bool_decide_eq_false. apply Z.leb_gt in Hle. lia.
  - intros ip w b Hb Hout. apply (rateLimit_elapsed ip w b); assumption.
Qed.

Lemma rateLimit_window_witness :
  let stale :=
    {| clock := 0%Z;
       buckets := {[ lit "10.0.0.1" := {| start := 1000%Z; count := 41%Z |} ]};
       body_parses := []; calls := []; fetches := [] |} in
  (rateLimit_at (lit "10.0.0.1") (1000%Z :: List.map Z.of_nat (seq 1001 40)) fresh).1
  = List.map (fun i => bool_decide (i < 40)%nat) (seq 0 41)
  /\ (rateLimit_at (lit "10.0.0.1") (70000%Z :: List.map (fun i => 70000 + Z.of_nat i)%Z (seq 1 40)) stale).1
     = List.map (fun i => bool_decide (i < 40)%nat) (seq 0 41)
  /\ rateLimit (lit "10.0.0.1") (at_time 70000 stale)
     = (Ok true,
        with_bucket (lit "10.0.0.1") {| start := 70000%Z; count := (0 + 1)%Z |}
          (at_time 70000 stale)).
Proof.
  intros stale.
  destruct rateLimit_window as (_ & _ & Hwin & Hreset). split; [|split].
  - apply (Hwin (lit "10.0.0.1") fresh 1000%Z (List.map Z.of_nat (seq 1001 40))).
    + intros b Hb. discriminate Hb.
    + apply List.Forall_forall. intros t Ht. apply in_map_iff in Ht as (n & <- & Hn).
      apply in_seq in Hn. lia.
  - apply (Hwin (lit "10.0.0.1") stale 70000%Z
               (List.map (fun i => 70000 + Z.of_nat i)%Z (seq 1 40))).
    + intros b Hb. vm_compute in Hb. injection Hb as <-. cbn. lia.
    + apply List.Forall_forall. intros t Ht. apply in_map_iff in Ht as (n & <- & Hn).
      apply in_seq in Hn. lia.
  - apply (Hreset (lit "10.0.0.1") (at_time 70000 stale) {| start := 1000%Z; count := 41%Z |}).
    + apply lookup_singleton_eq.
    + cbn. lia.
Defined.

(** ** Numbers: printing and reading back *)

Section Numbers.

Implicit Types (ds : list N) (rest s : ustring).






Lemma uint_digits_le u : Forall (fun x => x <= 9) (uint_digits u).
Proof. induction u; cbn; constructor; (lia || assumption). Qed.






















End Numbers.

(** ** Strings: quoting and reading back *)

Section Strings.

Implicit Types (s t rest : ustring) (c : N).









End Strings.

(** ** Values: [JSON.parse] after [JSON.stringify] *)

Section RoundTrip.

Implicit Types (v : value) (s rest : ustring) (c : N).

Lemma value_ind' (P : value -> Prop) :
  P JNull -> (forall b, P (JBool b)) -> (forall d, P (JNum d)) ->
  (forall s, P (JStr s)) ->
  (forall l, Forall P l -> P (JArr l)) ->
  (forall kvs, Forall (fun kv => P (snd kv)) kvs -> P (JObj kvs)) ->
  forall v, P v.
Proof.
  intros Hnull Hbool Hnum Hstr Harr Hobj.
  fix IH 1. intros [| b | d | s | l | kvs].
  - exact Hnull.
  - apply Hbool.
  - apply Hnum.
  - apply Hstr.
  - apply Harr. induction l as [|x l IHl]; constructor; [apply IH | exact IHl].
  - apply Hobj. induction kvs as [|kv kvs IHl]; constructor; [apply IH | exact IHl].
Qed.




















End RoundTrip.

(** ** The fuel of the parser is never what makes it fail *)

Section Fuel.

Implicit Types (s t r : ustring) (f g : nat).

Lemma skip_ws_length s : (length (skip_ws s) <= length s)%nat.
Proof.
  induction s as [|c s IH]; cbn; [lia|].
  destruct (is_json_space c); cbn; lia.
Qed.

Lemma parse_string_body_length s : forall t r,
  parse_string_body s = Some (t, r) -> (length r < length s)%nat.
Proof.
  induction s as [s IH] using (induction_ltof1 _ (@length N)); unfold ltof in IH.
  intros t r. destruct s as [|c s]; [discriminate|]. cbn [parse_string_body].
  destruct (c =? 34); [intros [= <- <-]; cbn; lia|].
  destruct (c =? 92).
  - destruct s as [|e s1]; [discriminate|].
    destruct (e =? 117).
    + destruct s1 as [|h1 [|h2 [|h3 [|h4 s2]]]]; try discriminate.
      destruct (hex_value h1), (hex_value h2), (hex_value h3), (hex_value h4);
        try discriminate.
      destruct (parse_string_body s2) as [[t' r']|] eqn:E; [|discriminate].
      intros [= <- <-]. apply IH in E; cbn in *; lia.
    + destruct (simple_escape e); [|discriminate].
      destruct (parse_string_body s1) as [[t' r']|] eqn:E; [|discriminate].
      intros [= <- <-]. apply IH in E; cbn in *; lia.
  - destruct (c <? 32); [discriminate|].
    destruct (parse_string_body s) as [[t' r']|] eqn:E; [|discriminate].
    intros [= <- <-]. apply IH in E; cbn in *; lia.
Qed.

Lemma span_digits_length s : forall ds r,
  span_digits s = (ds, r) -> (length r <= length s)%nat.
Proof.
  induction s as [|c s IH]; intros ds r; cbn.
  - intros [= <- <-]. cbn. lia.
  - destruct (is_digit c); [|intros [= <- <-]; cbn; lia].
    destruct (span_digits s) as [ds' r'] eqn:E. intros [= <- <-].
    specialize (IH _ _ eq_refl). lia.
Qed.

Lemma parse_number_length s d r :
  parse_number s = Some (d, r) -> (length r < length s)%nat.
Proof.
  unfold parse_number.
  assert (Hint : forall s1 ip s2, lex_int s1 = Some (ip, s2) -> (length s2 < length s1)%nat).
  { intros s1 ip s2. unfold lex_int. destruct s1 as [|c s1]; [discriminate|].
    destruct (c =? 48); [intros [= <- <-]; cbn; lia|].
    destruct (is_digit c) eqn:Hc; [|discriminate].
    cbn [span_digits]. rewrite Hc.
    destruct (span_digits s1) as [ds r'] eqn:E. intros [= <- <-].
    apply span_digits_length in E. cbn. lia. }
  assert (Hfrac : forall s2 fp s3, lex_frac s2 = Some (fp, s3) -> (length s3 <= length s2)%nat).
  { intros s2 fp s3. unfold lex_frac. destruct s2 as [|c s2]; [intros [= <- <-]; lia|].
    destruct (c =? 46); [|intros [= <- <-]; lia].
    destruct (span_digits s2) as [[|x ds] r'] eqn:E; [discriminate|].
    intros [= <- <-]. apply span_digits_length in E. cbn. lia. }
  assert (Hexpd : forall neg s3 e s4,
             lex_exp_digits neg s3 = Some (e, s4) -> (length s4 <= length s3)%nat).
  { intros neg s3 e s4. unfold lex_exp_digits.
    destruct (span_digits s3) as [[|x ds] r'] eqn:E; [discriminate|].
    intros [= <- <-]. now apply span_digits_length in E. }
  assert (Hexp : forall s3 e s4, lex_exp s3 = Some (e, s4) -> (length s4 <= length s3)%nat).
  { intros s3 e s4. unfold lex_exp. destruct s3 as [|c s3]; [intros [= <- <-]; lia|].
    destruct ((c =? 101) || (c =? 69)); [|intros [= <- <-]; lia].
    destruct s3 as [|x s3]; [discriminate|].
    destruct (x =? 43); [intros H; apply Hexpd in H; cbn; lia|].
    destruct (x =? 45); [intros H; apply Hexpd in H; cbn; lia|].
    intros H; apply Hexpd in H; cbn in *; lia. }
  set (sg := match s with c :: r0 => if c =? 45 then (true, r0) else (false, s)
                        | [] => (false, s) end).
  assert (Hsg : (length sg.2 <= length s)%nat).
  { subst sg. destruct s as [|c s]; [cbn; lia|]. destruct (c =? 45); cbn; lia. }
  destruct sg as [neg s1]. cbn [snd] in Hsg.
  destruct (lex_int s1) as [[ip s2]|] eqn:E1; [|discriminate]. cbn [mbind option_bind].
  destruct (lex_frac s2) as [[fp s3]|] eqn:E2; [|discriminate]. cbn [mbind option_bind].
  destruct (lex_exp s3) as [[e s4]|] eqn:E3; [|discriminate]. cbn [mbind option_bind].
  intros [= <- <-]. apply Hint in E1. apply Hfrac in E2. apply Hexp in E3. lia.
Qed.

Lemma strip_prefix_length p : forall s r,
  strip_prefix p s = Some r -> (length r + length p = length s)%nat.
Proof.
  induction p as [|a p IH]; intros s r; cbn.
  - intros [= <-]. lia.
  - destruct s as [|b s]; [discriminate|].
    destruct (a =? b); [|discriminate]. intros H. apply IH in H. cbn. lia.
Qed.

(** A member is read with the parser of values applied to a shorter text,
    and leaves a shorter text than that. *)
Lemma parse_member_shorter pv pv' s :
  (forall t, (length t < length s)%nat -> pv' t = pv t) ->
  (forall t v r, (length t < length s)%nat -> pv t = Some (v, r) ->
                 (length r < length t)%nat) ->
  parse_member pv' s = parse_member pv s
  /\ forall kv r, parse_member pv s = Some (kv, r) -> (length r < length s)%nat.
Proof.
  intros Hext Hlen. unfold parse_member.
  pose proof (skip_ws_length s) as Hs.
  destruct (skip_ws s) as [|c s1]; [split; [reflexivity | discriminate]|].
  destruct (c =? 34); [|split; [reflexivity | discriminate]].
  destruct (parse_string_body s1) as [[k r1]|] eqn:Ek;
    [|split; [reflexivity | discriminate]].
  apply parse_string_body_length in Ek. cbn [mbind option_bind].
  pose proof (skip_ws_length r1) as Hr1.
  destruct (skip_ws r1) as [|c1 r2]; [split; [reflexivity | discriminate]|].
  destruct (c1 =? 58); [|split; [reflexivity | discriminate]].
  cbn [length] in *.
  rewrite Hext by lia. split; [reflexivity|].
  destruct (pv r2) as [[v r3]|] eqn:Ev; [|discriminate].
  cbn [mbind option_bind]. intros kv r [= <- <-].
  apply Hlen in Ev; lia.
Qed.

(** With more fuel than the text is long, the three parsers leave a shorter
    text and answer the same with any larger fuel. *)
Lemma parse_fuel f :
  (forall s, (length s < f)%nat ->
     (forall v r, parse_value f s = Some (v, r) -> (length r < length s)%nat)
     /\ forall f', (f <= f')%nat -> parse_value f' s = parse_value f s)
  /\ (forall s, (length s < f)%nat ->
        (forall l r, parse_elems f s = Some (l, r) -> (length r < length s)%nat)
        /\ forall f', (f <= f')%nat -> parse_elems f' s = parse_elems f s)
  /\ (forall s, (length s < f)%nat ->
        (forall l r, parse_members f s = Some (l, r) -> (length r < length s)%nat)
        /\ forall f', (f <= f')%nat -> parse_members f' s = parse_members f s).
Proof.
  induction f as [|g (IHv & IHe & IHm)]; [repeat split; intros; lia|].
  assert (Hmember : forall s f', (length s < g)%nat -> (g <= f')%nat ->
             parse_member (parse_value f') s = parse_member (parse_value g) s
             /\ forall kv r, parse_member (parse_value g) s = Some (kv, r) ->
                             (length r < length s)%nat).
  { intros s f' Hs Hf. apply parse_member_shorter.
    - intros t Ht. apply IHv; lia.
    - intros t v r Ht. apply IHv. lia. }
  split; [|split].
  - intros s Hs. pose proof (skip_ws_length s) as Hws.
    assert (Hboth : forall f', (S g <= f')%nat ->
               parse_value f' s = parse_value (S g) s
               /\ forall v r, parse_value (S g) s = Some (v, r) ->
                              (length r < length s)%nat).
    { intros [|g'] Hf; [lia|]. cbn [parse_value].
      destruct (skip_ws s) as [|c r0]; [split; [reflexivity | discriminate]|].
      cbn [length] in Hws.
      destruct (c =? 123).
      { pose proof (skip_ws_length r0) as Hr0.
        destruct (skip_ws r0) as [|c1 r1]; [split; [reflexivity | discriminate]|].
        destruct (c1 =? 125); [split; [reflexivity|]; intros v r [= <- <-];
                                cbn [length] in *; lia|].
        destruct (Hmember (c1 :: r1) g') as [-> Hml]; [lia | lia |].
        destruct (parse_member (parse_value g) (c1 :: r1)) as [[kv r2]|] eqn:Ekv;
          [|split; [reflexivity | discriminate]].
        specialize (Hml _ _ eq_refl). cbn [mbind option_bind].
        destruct (IHm r2) as [Hl Hext]; [lia|]. rewrite (Hext g') by lia.
        split; [reflexivity|].
        destruct (parse_members g r2) as [[kvs r3]|] eqn:Ekvs; [|discriminate].
        specialize (Hl _ _ eq_refl). cbn [mbind option_bind]. intros v r [= <- <-]. lia. }
      destruct (c =? 91).
      { pose proof (skip_ws_length r0) as Hr0.
        destruct (skip_ws r0) as [|c1 r1]; [split; [reflexivity | discriminate]|].
        destruct (c1 =? 93); [split; [reflexivity|]; intros v r [= <- <-];
                               cbn [length] in *; lia|].
        destruct (IHv (c1 :: r1)) as [Hl1 Hext1]; [lia|]. rewrite (Hext1 g') by lia.
        destruct (parse_value g (c1 :: r1)) as [[x r2]|] eqn:Ex;
          [|split; [reflexivity | discriminate]].
        specialize (Hl1 _ _ eq_refl). cbn [mbind option_bind].
        destruct (IHe r2) as [Hl Hext]; [lia|]. rewrite (Hext g') by lia.
        split; [reflexivity|].
        destruct (parse_elems g r2) as [[vs r3]|] eqn:Evs; [|discriminate].
        specialize (Hl _ _ eq_refl). cbn [mbind option_bind]. intros v r [= <- <-]. lia. }
      split; [reflexivity|].
      destruct (c =? 34).
      { destruct (parse_string_body r0) as [[t r1]|] eqn:E; [|discriminate].
        apply parse_string_body_length in E. cbn [mbind option_bind].
        intros v r [= <- <-]. cbn [length] in *. lia. }
      destruct (c =? 116).
      { destruct (strip_prefix _ _) as [r1|] eqn:E; [|discriminate].
        apply strip_prefix_length in E. cbn [mbind option_bind].
        intros v r [= <- <-]. cbn [length] in *. change (length (lit "true")) with 4%nat in E. lia. }
      destruct (c =? 102).
      { destruct (strip_prefix _ _) as [r1|] eqn:E; [|discriminate].
        apply strip_prefix_length in E. cbn [mbind option_bind].
        intros v r [= <- <-]. cbn [length] in *. change (length (lit "false")) with 5%nat in E. lia. }
      destruct (c =? 110).
      { destruct (strip_prefix _ _) as [r1|] eqn:E; [|discriminate].
        apply strip_prefix_length in E. cbn [mbind option_bind].
        intros v r [= <- <-]. cbn [length] in *. change (length (lit "null")) with 4%nat in E. lia. }
      destruct (parse_number (c :: r0)) as [[d r1]|] eqn:E; [|discriminate].
      apply parse_number_length in E. cbn [mbind option_bind].
      intros v r [= <- <-]. cbn [length] in *. lia. }
    split.
    + apply (Hboth (S g)). lia.
    + intros f' Hf. now apply Hboth.
  - intros s Hs. pose proof (skip_ws_length s) as Hws.
    assert (Hboth : forall f', (S g <= f')%nat ->
               parse_elems f' s = parse_elems (S g) s
               /\ forall l r, parse_elems (S g) s = Some (l, r) ->
                              (length r < length s)%nat).
    { intros [|g'] Hf; [lia|]. cbn [parse_elems].
      destruct (skip_ws s) as [|c r0]; [split; [reflexivity | discriminate]|].
      cbn [length] in Hws.
      destruct (c =? 93); [split; [reflexivity|]; intros l r [= <- <-]; lia|].
      destruct (c =? 44); [|split; [reflexivity | discriminate]].
      destruct (IHv r0) as [Hl1 Hext1]; [lia|]. rewrite (Hext1 g') by lia.
      destruct (parse_value g r0) as [[x r2]|] eqn:Ex;
        [|split; [reflexivity | discriminate]].
      specialize (Hl1 _ _ eq_refl). cbn [mbind option_bind].
      destruct (IHe r2) as [Hl Hext]; [lia|]. rewrite (Hext g') by lia.
      split; [reflexivity|].
      destruct (parse_elems g r2) as [[vs r3]|] eqn:Evs; [|discriminate].
      specialize (Hl _ _ eq_refl). cbn [mbind option_bind]. intros l r [= <- <-]. lia. }
    split.
    + apply (Hboth (S g)). lia.
    + intros f' Hf. now apply Hboth.
  - intros s Hs. pose proof (skip_ws_length s) as Hws.
    assert (Hboth : forall f', (S g <= f')%nat ->
               parse_members f' s = parse_members (S g) s
               /\ forall l r, parse_members (S g) s = Some (l, r) ->
                              (length r < length s)%nat).
    { intros [|g'] Hf; [lia|]. cbn [parse_members].
      destruct (skip_ws s) as [|c r0]; [split; [reflexivity | discriminate]|].
      cbn [length] in Hws.
      destruct (c =? 125); [split; [reflexivity|]; intros l r [= <- <-]; lia|].
      destruct (c =? 44); [|split; [reflexivity | discriminate]].
      destruct (Hmember r0 g') as [-> Hml]; [lia | lia |].
      destruct (parse_member (parse_value g) r0) as [[kv r2]|] eqn:Ekv;
        [|split; [reflexivity | discriminate]].
      specialize (Hml _ _ eq_refl). cbn [mbind option_bind].
      destruct (IHm r2) as [Hl Hext]; [lia|]. rewrite (Hext g') by lia.
      split; [reflexivity|].
      destruct (parse_members g r2) as [[kvs r3]|] eqn:Ekvs; [|discriminate].
      specialize (Hl _ _ eq_refl). cbn [mbind option_bind]. intros l r [= <- <-]. lia. }
    split.
    + apply (Hboth (S g)). lia.
    + intros f' Hf. now apply Hboth.
Qed.

(** The answer of [JSON.parse] does not depend on the fuel: any amount above
    the length of the text gives the parse that [JSON_parse] reports. *)
Theorem parse_value_fuel s f :
  (length s < f)%nat -> parse_value f s = parse_value (S (length s)) s.
Proof.
  intros Hf.
  destruct (parse_fuel (S (length s))) as [Hv _].
  destruct (Hv s) as [_ Hext]; [lia|]. apply Hext. lia.
Qed.

End Fuel.

(** ** What the parser builds: doubles and distinct keys *)

Section ParsedValues.

Implicit Types (s r : ustring) (ds : list N) (v : value).

Lemma wf_arr l : wf_value (JArr l) <-> Forall wf_value l.
Proof.
  cbn [wf_value]. induction l as [|x l IH]; cbn [fold_right].
  - split; [constructor | trivial].
  - rewrite Forall_cons. tauto.
Qed.

Lemma wf_obj kvs :
  wf_value (JObj kvs)
  <-> keys_ok (List.map fst kvs) /\ Forall (fun kv => wf_value (snd kv)) kvs.
Proof.
  cbn [wf_value]. apply and_iff_compat_l.
  induction kvs as [|kv kvs IH]; cbn [fold_right].
  - split; [constructor | trivial].
  - rewrite Forall_cons. tauto.
Qed.

Lemma parsed_arr l : parsed_value (JArr l) <-> Forall parsed_value l.
Proof.
  cbn [parsed_value]. induction l as [|x l IH]; cbn [fold_right].
  - split; [constructor | trivial].
  - rewrite Forall_cons. tauto.
Qed.

Lemma parsed_obj kvs :
  parsed_value (JObj kvs)
  <-> keys_ok (List.map fst kvs) /\ Forall (fun kv => parsed_value (snd kv)) kvs.
Proof.
  cbn [parsed_value]. apply and_iff_compat_l.
  induction kvs as [|kv kvs IH]; cbn [fold_right].
  - split; [constructor | trivial].
  - rewrite Forall_cons. tauto.
Qed.

(** A value that JSON can write is a value as the parser builds them. *)
Lemma wf_parsed v : wf_value v -> parsed_value v.
Proof.
  induction v as [| b | x | s | l IHl | kvs IHkvs] using value_ind'; try exact id.
  - now intros [H _].
  - rewrite wf_arr, parsed_arr. intros H.
    induction IHl as [|y l Hy _ IH]; [constructor|].
    inversion H; subst. constructor; auto.
  - rewrite wf_obj, parsed_obj. intros [Hnd H]. split; [assumption|].
    clear Hnd. induction IHkvs as [|kv kvs Hy _ IH]; [constructor|].
    inversion H; subst. constructor; auto.
Qed.

Lemma span_digits_le s : forall ds r,
  span_digits s = (ds, r) -> Forall (fun x => x <= 9) ds.
Proof.
  induction s as [|c s IH]; intros ds r; cbn.
  - intros [= <- <-]. constructor.
  - destruct (is_digit c) eqn:Hc; [|intros [= <- <-]; constructor].
    destruct (span_digits s) as [ds' r'] eqn:E. intros [= <- <-].
    constructor; [|eapply IH; reflexivity].
    unfold is_digit in Hc. apply andb_true_iff in Hc as [H1 H2].
    apply N.leb_le in H1, H2. lia.
Qed.

Lemma strip_zeros_split ds :
  exists zs, ds = zs ++ strip_zeros ds
             /\ match strip_zeros ds with x :: _ => x <> 0 | [] => True end.
Proof.
  induction ds as [|d ds (zs & E & H)]; [exists []; split; [reflexivity | exact I]|].
  cbn [strip_zeros]. destruct (N.eqb_spec d 0) as [->|Hd].
  - exists (0 :: zs). split; [cbn; now f_equal | exact H].
  - exists []. split; [reflexivity | exact Hd].
Qed.

Lemma Forall_strip_zeros (Q : N -> Prop) ds : Forall Q ds -> Forall Q (strip_zeros ds).
Proof.
  intros H. destruct (strip_zeros_split ds) as (zs & E & _).
  rewrite E in H. now apply Forall_app in H as [_ H].
Qed.

Lemma literal_decimal_is_normal neg ip fp e :
  Forall (fun x => x <= 9) ip -> Forall (fun x => x <= 9) fp ->
  dec_normal (literal_decimal neg ip fp e).
Proof.
  intros Hip Hfp. unfold literal_decimal.
  set (m := strip_zeros (ip ++ fp)).
  assert (Hm : Forall (fun x => x <= 9) m)
    by (apply Forall_strip_zeros, Forall_app; now split).
  assert (Hhead : match m with x :: _ => x <> 0 | [] => True end)
    by (destruct (strip_zeros_split (ip ++ fp)) as (? & _ & H); exact H).
  destruct (strip_zeros_split (rev m)) as (zs & E & Hq).
  set (q := strip_zeros (rev m)) in *.
  assert (Em : m = rev q ++ rev zs)
    by (rewrite <- rev_app_distr, <- E; symmetry; apply rev_involutive).
  destruct q as [|y q']; [cbn; split; reflexivity|].
  assert (Hsig : Forall (fun x => x <= 9) (rev (y :: q')))
    by (rewrite Em in Hm; now apply Forall_app in Hm as [Hm _]).
  destruct (rev (y :: q')) as [|d1 sig] eqn:Es.
  { apply (f_equal (@length N)) in Es. rewrite length_rev in Es. discriminate. }
  unfold dec_normal. cbn [ddigits]. split; [exact Hsig|]. split.
  - rewrite Em in Hhead. exact Hhead.
  - rewrite <- Es. cbn [rev]. now rewrite last_last.
Qed.

Lemma literal_decimal_sign neg ip fp e :
  dneg (literal_decimal neg ip fp e) = neg \/ ddigits (literal_decimal neg ip fp e) = [].
Proof.
  unfold literal_decimal. destruct (rev _); [right | left]; reflexivity.
Qed.

Lemma neighbours_dec_of_Z neg q k p c :
  In c (neighbours neg q k p) -> exists z e, c = dec_of_Z neg z e.
Proof.
  unfold neighbours.
  destruct (if (0 <=? k)%Z then _ else _) as [m e].
  destruct (_ <=? 0)%Z; [intros [<-|[]]; eauto|].
  destruct (_ ?= _)%Z; [destruct (Z.even _)| |];
    intros [<-|[<-|[]]]; eauto.
Qed.

Lemma reads_as_double b c : reads_as b c = true -> double_of_dec c = Some b.
Proof.
  unfold reads_as. destruct (double_of_dec c) as [[q k]|]; [|discriminate].
  destruct b as [q' k']. cbn [fst snd]. intros H.
  apply andb_true_iff in H as [H1 H2].
  apply Z.eqb_eq in H1, H2. now subst.
Qed.

(** The decimal [shortest] finds is in normal form, has the sign asked for
    and reads as the double. *)
Lemma shortest_reads neg q k c :
  q <> 0%Z -> shortest neg q k = Some c ->
  dec_normal c /\ dneg c = neg /\ double_of_dec c = Some (q, k).
Proof.
  intros Hq Hs. unfold shortest in Hs.
  assert (Hin : In c (List.filter (reads_as (q, k))
                        (flat_map (neighbours neg q k) (seq 1 17)))).
  { destruct (List.filter _ _) as [|c' l]; [discriminate|].
    injection Hs as ->. now left. }
  apply List.filter_In in Hin as [Hin Hr].
  apply reads_as_double in Hr.
  apply in_flat_map in Hin as (p & _ & Hin).
  apply neighbours_dec_of_Z in Hin as (z & e & ->).
  split; [|split; [|exact Hr]].
  - apply literal_decimal_is_normal; [apply uint_digits_le | constructor].
  - destruct (literal_decimal_sign neg (uint_digits (N.to_uint (Z.to_N z))) [] e)
      as [H|H]; [exact H|].
    exfalso. unfold double_of_dec, dec_of_Z in Hr. rewrite H in Hr.
    injection Hr as Hr _. now apply Hq.
Qed.

(** The number a decimal in normal form reads as is a double, kept as its
    own decimal. *)
Lemma Number_of_dec_wf d : dec_normal d -> number_wf (Number_of_dec d).
Proof.
  intros Hd. unfold Number_of_dec.
  destruct (double_of_dec d) as [[q k]|] eqn:Ed; [|exact I].
  destruct (q =? 0)%Z eqn:Hq.
  { split; [split; reflexivity | reflexivity]. }
  apply Z.eqb_neq in Hq.
  destruct (shortest (dneg d) q k) as [c|] eqn:Es; cbn [from_option number_wf];
    unfold id.
  - destruct (shortest_reads _ _ _ _ Hq Es) as (Hn & Hsign & Hr).
    split; [exact Hn|]. unfold Number_of_dec. rewrite Hr, Hsign, Es.
    apply Z.eqb_neq in Hq. now rewrite Hq.
  - split; [exact Hd|]. unfold Number_of_dec. rewrite Ed, Es.
    apply Z.eqb_neq in Hq. now rewrite Hq.
Qed.

Lemma parse_number_wf s x r : parse_number s = Some (x, r) -> number_wf x.
Proof.
  unfold parse_number.
  destruct (match s with c :: r0 => if c =? 45 then (true, r0) else (false, s)
                       | [] => (false, s) end) as [neg s1].
  destruct (lex_int s1) as [[ip s2]|] eqn:E1; [|discriminate]. cbn [mbind option_bind].
  destruct (lex_frac s2) as [[fp s3]|] eqn:E2; [|discriminate]. cbn [mbind option_bind].
  destruct (lex_exp s3) as [[e s4]|] eqn:E3; [|discriminate]. cbn [mbind option_bind].
  intros [= <- <-]. apply Number_of_dec_wf, literal_decimal_is_normal.
  - unfold lex_int in E1. destruct s1 as [|c s1]; [discriminate|].
    destruct (c =? 48); [injection E1 as <- <-; repeat constructor; lia|].
    destruct (is_digit c); [|discriminate].
    injection E1 as E1. apply (span_digits_le (c :: s1) ip s2). exact E1.
  - unfold lex_frac in E2. destruct s2 as [|c s2]; [injection E2 as <- <-; constructor|].
    destruct (c =? 46); [|injection E2 as <- <-; constructor].
    destruct (span_digits s2) as [[|x ds] r'] eqn:E; [discriminate|].
    injection E2 as <- <-. eapply span_digits_le. exact E.
Qed.

Lemma obj_replace_keys {A} k (a : A) (kvs : list (ustring * A)) :
  List.map fst (obj_replace k a kvs) = List.map fst kvs.
Proof.
  induction kvs as [|[k' v'] kvs IH]; [reflexivity|].
  cbn. destruct (decide (k = k')) as [->|Hne]; [reflexivity|].
  cbn. now f_equal.
Qed.

Lemma obj_replace_Forall {A} (Q : A -> Prop) k (a : A) (kvs : list (ustring * A)) :
  Q a -> Forall (fun kv => Q (snd kv)) kvs ->
  Forall (fun kv => Q (snd kv)) (obj_replace k a kvs).
Proof.
  intros Hv. induction 1 as [|[k' v'] kvs Hx Hall IH]; cbn; [constructor|].
  destruct (decide (k = k')); constructor; assumption.
Qed.

Lemma obj_insert_Forall {A} (Q : ustring * A -> Prop) k (a : A)
    (kvs : list (ustring * A)) :
  Q (k, a) -> Forall Q kvs -> Forall Q (obj_insert k a kvs).
Proof.
  intros Hv. induction 1 as [|[k' v'] kvs Hx Hall IH]; cbn; [repeat constructor; exact Hv|].
  destruct (precedes k k'); repeat constructor; assumption.
Qed.

Lemma obj_insert_keys {A} k (a : A) (kvs : list (ustring * A)) x :
  x ∈ List.map fst (obj_insert k a kvs) <-> x = k \/ x ∈ List.map fst kvs.
Proof.
  induction kvs as [|[k' v'] kvs IH]; cbn.
  - rewrite list_elem_of_singleton. split; [now left | intros [?|H]; [assumption|]].
    now apply elem_of_nil in H.
  - destruct (precedes k k'); cbn; rewrite !elem_of_cons; [tauto|].
    rewrite IH. tauto.
Qed.

(** A key that goes before [k'] goes before every key that does not go
    before [k']. *)
Lemma precedes_later k k' l :
  precedes k k' = true -> precedes l k' = false -> precedes l k = false.
Proof.
  unfold precedes.
  destruct (array_index k) as [i|]; [|discriminate].
  destruct (array_index l) as [m|]; [|reflexivity].
  destruct (array_index k') as [j|]; [|discriminate].
  intros H1 H2. apply N.ltb_lt in H1. apply N.ltb_ge in H2. apply N.ltb_ge. lia.
Qed.

Lemma precedes_back k k' : precedes k k' = true -> precedes k' k = false.
Proof.
  unfold precedes.
  destruct (array_index k) as [i|]; [|discriminate].
  destruct (array_index k') as [j|]; [|reflexivity].
  intros H. apply N.ltb_lt in H. apply N.ltb_ge. lia.
Qed.

Lemma obj_insert_order {A} k (a : A) (kvs : list (ustring * A)) :
  key_order (List.map fst kvs) -> key_order (List.map fst (obj_insert k a kvs)).
Proof.
  induction kvs as [|[k' v'] kvs IH]; cbn [obj_insert List.map fst key_order].
  - intros _. split; [constructor | exact I].
  - intros [Hk' Hord]. destruct (precedes k k') eqn:Hp; cbn [List.map fst key_order].
    + split; [|split; assumption].
      constructor; [now apply precedes_back|].
      eapply Forall_impl; [exact Hk'|]. intros l Hl. cbn beta in Hl |- *.
      now apply (precedes_later k k' l).
    + split; [|now apply IH].
      apply Forall_forall. intros x Hx.
      apply obj_insert_keys in Hx as [->|Hx]; [exact Hp|].
      rewrite Forall_forall in Hk'. now apply Hk'.
Qed.

Lemma obj_set_wf k v (kvs : list (ustring * value)) :
  parsed_value v ->
  keys_ok (List.map fst kvs) /\ Forall (fun kv => parsed_value (snd kv)) kvs ->
  keys_ok (List.map fst (obj_set k v kvs))
  /\ Forall (fun kv => parsed_value (snd kv)) (obj_set k v kvs).
Proof.
  intros Hv [[Hnd Hord] Hall]. unfold obj_set.
  destruct (assoc k kvs) as [old|] eqn:Ea.
  - rewrite obj_replace_keys. split; [split; assumption|].
    now apply obj_replace_Forall.
  - split; [split|].
    + assert (Hout : k ∉ List.map fst kvs).
      { clear - Ea. induction kvs as [|[k' v'] kvs IH]; [apply not_elem_of_nil|].
        cbn in Ea |- *. destruct (decide (k = k')); [discriminate|].
        apply not_elem_of_cons. split; [assumption | now apply IH]. }
      clear Ea Hord Hall.
      induction kvs as [|[k' v'] kvs IH]; cbn [obj_insert].
      * cbn. apply NoDup_singleton.
      * cbn [List.map fst] in Hnd, Hout. apply NoDup_cons in Hnd as [Hk' Hnd].
        apply not_elem_of_cons in Hout as [Hne Hout].
        destruct (precedes k k'); cbn [List.map fst].
        -- apply NoDup_cons. split.
           ++ apply not_elem_of_cons. split; assumption.
           ++ apply NoDup_cons. split; assumption.
        -- apply NoDup_cons. split; [|now apply IH].
           rewrite obj_insert_keys. intros [->|H]; [now apply Hne | now apply Hk'].
    + now apply obj_insert_order.
    + now apply (obj_insert_Forall (fun kv => parsed_value (snd kv))).
Qed.

Lemma fold_obj_set_wf (kvs : list (ustring * value)) : forall acc,
  Forall (fun kv => parsed_value (snd kv)) kvs ->
  keys_ok (List.map fst acc) /\ Forall (fun kv => parsed_value (snd kv)) acc ->
  parsed_value (JObj (fold_left (fun o kv => obj_set (fst kv) (snd kv) o) kvs acc)).
Proof.
  induction kvs as [|[k v] kvs IH]; intros acc Hkvs Hacc; cbn [fold_left].
  - now apply parsed_obj.
  - inversion Hkvs; subst. apply IH; [assumption|]. now apply obj_set_wf.
Qed.

(** Every value the parser returns has doubles for numbers and distinct
    keys. *)
Lemma parse_wf f :
  (forall s v r, parse_value f s = Some (v, r) -> parsed_value v)
  /\ (forall s l r, parse_elems f s = Some (l, r) -> Forall parsed_value l)
  /\ (forall s kvs r, parse_members f s = Some (kvs, r) ->
        Forall (fun kv => parsed_value (snd kv)) kvs).
Proof.
  induction f as [|g (IHv & IHe & IHm)]; [repeat split; discriminate|].
  assert (Hmember : forall s kv r,
             parse_member (parse_value g) s = Some (kv, r) -> parsed_value (snd kv)).
  { intros s kv r. unfold parse_member.
    destruct (skip_ws s) as [|c s1]; [discriminate|].
    destruct (c =? 34); [|discriminate].
    destruct (parse_string_body s1) as [[k r1]|]; [|discriminate]. cbn [mbind option_bind].
    destruct (skip_ws r1) as [|c1 r2]; [discriminate|].
    destruct (c1 =? 58); [|discriminate].
    destruct (parse_value g r2) as [[v r3]|] eqn:Ev; [|discriminate].
    cbn [mbind option_bind]. intros [= <- <-]. eapply IHv. exact Ev. }
  split; [|split].
  - intros s v r. cbn [parse_value].
    destruct (skip_ws s) as [|c r0]; [discriminate|].
    destruct (c =? 123).
    { destruct (skip_ws r0) as [|c1 r1]; [discriminate|].
      destruct (c1 =? 125);
        [intros [= <- <-]; cbn; split; [split; [constructor | exact I] | exact I]|].
      destruct (parse_member (parse_value g) (c1 :: r1)) as [[kv r2]|] eqn:Ekv;
        [|discriminate]. cbn [mbind option_bind].
      destruct (parse_members g r2) as [[kvs r3]|] eqn:Ekvs; [|discriminate].
      cbn [mbind option_bind]. intros [= <- <-].
      apply (fold_obj_set_wf (kv :: kvs) []).
      - constructor; [eapply Hmember; exact Ekv | eapply IHm; exact Ekvs].
      - split; [split; [constructor | exact I] | constructor]. }
    destruct (c =? 91).
    { destruct (skip_ws r0) as [|c1 r1]; [discriminate|].
      destruct (c1 =? 93); [intros [= <- <-]; exact I|].
      destruct (parse_value g (c1 :: r1)) as [[x r2]|] eqn:Ex; [|discriminate].
      cbn [mbind option_bind].
      destruct (parse_elems g r2) as [[vs r3]|] eqn:Evs; [|discriminate].
      cbn [mbind option_bind]. intros [= <- <-].
      apply parsed_arr. constructor; [eapply IHv; exact Ex | eapply IHe; exact Evs]. }
    destruct (c =? 34).
    { destruct (parse_string_body r0) as [[t r1]|]; [|discriminate].
      cbn [mbind option_bind]. intros [= <- <-]. exact I. }
    destruct (c =? 116).
    { destruct (strip_prefix _ _); [|discriminate].
      cbn [mbind option_bind]. intros [= <- <-]. exact I. }
    destruct (c =? 102).
    { destruct (strip_prefix _ _); [|discriminate].
      cbn [mbind option_bind]. intros [= <- <-]. exact I. }
    destruct (c =? 110).
    { destruct (strip_prefix _ _); [|discriminate].
      cbn [mbind option_bind]. intros [= <- <-]. exact I. }
    destruct (parse_number (c :: r0)) as [[d r1]|] eqn:E; [|discriminate].
    cbn [mbind option_bind]. intros [= <- <-]. eapply parse_number_wf. exact E.
  - intros s l r. cbn [parse_elems].
    destruct (skip_ws s) as [|c r0]; [discriminate|].
    destruct (c =? 93); [intros [= <- <-]; constructor|].
    destruct (c =? 44); [|discriminate].
    destruct (parse_value g r0) as [[x r2]|] eqn:Ex; [|discriminate].
    cbn [mbind option_bind].
    destruct (parse_elems g r2) as [[vs r3]|] eqn:Evs; [|discriminate].
    cbn [mbind option_bind]. intros [= <- <-].
    constructor; [eapply IHv; exact Ex | eapply IHe; exact Evs].
  - intros s kvs r. cbn [parse_members].
    destruct (skip_ws s) as [|c r0]; [discriminate|].
    destruct (c =? 125); [intros [= <- <-]; constructor|].
    destruct (c =? 44); [|discriminate].
    destruct (parse_member (parse_value g) r0) as [[kv r2]|] eqn:Ekv; [|discriminate].
    cbn [mbind option_bind].
    destruct (parse_members g r2) as [[kvs' r3]|] eqn:Ekvs; [|discriminate].
    cbn [mbind option_bind]. intros [= <- <-].
    constructor; [eapply Hmember; exact Ekv | eapply IHm; exact Ekvs].
Qed.

Theorem JSON_parse_wf s v : JSON_parse s = Some v -> parsed_value v.
Proof.
  unfold JSON_parse.
  destruct (parse_value _ s) as [[x r]|] eqn:E; [|discriminate].
  destruct (skip_ws r); [|discriminate]. intros [= <-].
  eapply (proj1 (parse_wf _)). exact E.
Qed.

End ParsedValues.


(** ** The JSON extractor *)

Section Extractor.

Variable E : engine.

Implicit Types (s t : ustring) (c : N) (v : value).



(** The extractor on a string: trim, parse the whole text, else parse the
    span from the first opening to the last closing brace. *)
Lemma extractJson_string s :
  extractJson E (Some (JStr s))
  = Ok (match trim s with
        | [] => JNull
        | c :: t =>
          if truthy (safeJsonParse (c :: t)) then safeJsonParse (c :: t)
          else match match_braces (c :: t) with
               | Some m0 => if truthy (safeJsonParse m0) then safeJsonParse m0 else JNull
               | None => JNull
               end
        end).
Proof.
  unfold extractJson. destruct s as [|a s]; [reflexivity|].
  cbn [js_or_else truthy toString ToString js_ToString mbind result_bind].
  destruct (trim (a :: s)) as [|c t]; [reflexivity|].
  destruct (truthy (safeJsonParse (c :: t))); [reflexivity|].
  destruct (match_braces (c :: t)) as [m0|]; [|reflexivity].
  destruct (truthy (safeJsonParse m0)); reflexivity.
Qed.











End Extractor.




(** C10.  A text that is valid JSON for a falsy value ([null], [false], [0],
    the empty string) and in which no span from the first opening to the last
    closing brace parses to a truthy value is an extraction miss: the
    extractor returns [null]. *)
Theorem extractJson_falsy_is_miss E s v :
  JSON_parse (trim s) = Some v ->
  truthy v = false ->
  (forall m w, match_braces (trim s) = Some m -> JSON_parse m = Some w -> truthy w = false) ->
  extractJson E (Some (JStr s)) = Ok JNull.
Proof.
  intros Hparse Hfalsy Hblock. rewrite extractJson_string.
  destruct (trim s) as [|c t]; [reflexivity|].
  unfold safeJsonParse at 1 2. rewrite Hparse, Hfalsy.
  destruct (match_braces (c :: t)) as [m0|] eqn:Em; [|reflexivity].
  unfold safeJsonParse.
  destruct (JSON_parse m0) as [w|] eqn:Ew; [|reflexivity].
  now rewrite (Hblock m0 w eq_refl Ew).
Qed.

Lemma extractJson_falsy_is_miss_witness :
  extractJson engine_1000 (Some (JStr (lit "null"))) = Ok JNull
  /\ extractJson engine_1000 (Some (JStr (lit " false "))) = Ok JNull
  /\ extractJson engine_1000 (Some (JStr (lit "0"))) = Ok JNull
  /\ extractJson engine_1000 (Some (JStr (qlit "''"))) = Ok JNull
  /\ extractJson engine_1000 (Some (JStr (lit "1e-400"))) = Ok JNull.
Proof.
  split; [|split; [|split; [|split]]].
  - apply (extractJson_falsy_is_miss engine_1000 (lit "null") JNull);
      [reflexivity | reflexivity | intros m w H; vm_compute in H; discriminate].
  - apply (extractJson_falsy_is_miss engine_1000 (lit " false ") (JBool false));
      [reflexivity | reflexivity | intros m w H; vm_compute in H; discriminate].
  - apply (extractJson_falsy_is_miss engine_1000 (lit "0") (JNum dec_zero));
      [vm_compute; reflexivity | reflexivity | intros m w H; vm_compute in H; discriminate].
  - apply (extractJson_falsy_is_miss engine_1000 (qlit "''") (JStr []));
      [reflexivity | reflexivity | intros m w H; vm_compute in H; discriminate].
  - apply (extractJson_falsy_is_miss engine_1000 (lit "1e-400") (JNum dec_zero));
      [vm_compute; reflexivity | reflexivity | intros m w H; vm_compute in H; discriminate].
Defined.

(** ** The handler *)

Section Handler.

Variable P : platform.

Implicit Types (w : world) (ev : event) (p : prompts) (e : js_error).

Lemma keeps_calls_bind {A B} (m : M A) (k : A -> M B) :
  keeps_calls m -> (forall a, keeps_calls (k a)) -> keeps_calls (m ≫= k).
Proof.
  intros Hm Hk w r w'. unfold mbind, M_bind.
  destruct (m w) as [[a|e] w1] eqn:E; intros H.
  - rewrite (Hk a _ _ _ H). exact (Hm _ _ _ E).
  - injection H as <- <-. exact (Hm _ _ _ E).
Qed.

Lemma keeps_calls_pure {A} (r : result A) : keeps_calls (lift r).
Proof. intros w r' w' [= <- <-]. reflexivity. Qed.

Lemma keeps_calls_ret {A} (a : A) : keeps_calls (mret a).
Proof. intros w r' w' [= <- <-]. reflexivity. Qed.

Lemma keeps_calls_throw {A} e : keeps_calls (@throw A e).
Proof. intros w r' w' [= <- <-]. reflexivity. Qed.

Lemma keeps_calls_fetch rq : keeps_calls (fetchWithTimeout P rq).
Proof.
  intros w r w'. unfold fetchWithTimeout.
  destruct (fetch P _ rq); intros [= <- <-]; reflexivity.
Qed.

Lemma keeps_calls_chat_request apiKey baseUrl url missing c :
  keeps_calls (chat_request P apiKey baseUrl url missing c).
Proof.
  unfold chat_request. destruct (negb (str_truthy apiKey)).
  - apply keeps_calls_throw.
  - apply keeps_calls_bind; [apply keeps_calls_fetch|].
    intros [status text]. destruct (negb (status_ok status)).
    + apply keeps_calls_bind; [apply keeps_calls_pure | intros; apply keeps_calls_throw].
    + apply keeps_calls_ret.
Qed.

(** Every call of [callChatCompletion] is recorded, once. *)
Lemma callChatCompletion_calls c w r w' :
  callChatCompletion P c w = (r, w') -> calls w' = calls w ++ [c].
Proof.
  unfold callChatCompletion, mbind, M_bind, log_call.
  intros Hrun. repeat case_decide.
  - apply keeps_calls_chat_request in Hrun. exact Hrun.
  - apply keeps_calls_chat_request in Hrun. exact Hrun.
  - injection Hrun as <- <-. reflexivity.
Qed.

(** [run] makes exactly one call, with the prompts and the temperature it
    was given. *)
Lemma run_calls provider p temperature modelName w r w' :
  run P provider p temperature modelName w = (r, w') ->
  calls w'
  = calls w ++ [{| c_provider := provider; c_model := modelName;
                   c_system := system p; c_user := user p;
                   c_temperature := temperature |}].
Proof.
  unfold run, mbind at 1, M_bind at 1.
  destruct (callChatCompletion P _ w) as [[out|e] w1] eqn:E; intros H.
  - apply callChatCompletion_calls in E. rewrite <- E.
    revert H. apply keeps_calls_bind; [apply keeps_calls_pure|].
    intros v. destruct (negb (truthy v)); [|apply keeps_calls_ret].
    apply keeps_calls_bind; [apply keeps_calls_pure | intros; apply keeps_calls_ret].
  - injection H as <- <-. now apply callChatCompletion_calls in E.
Qed.

Lemma clampString_length o max x :
  (0 <= max)%Z -> clampString (eng P) o max = Ok x -> (str_length x <= max)%Z.
Proof.
  intros Hmax. unfold clampString.
  destruct (toString _) as [y|e]; cbn [mbind result_bind]; [|discriminate].
  destruct (str_length y <=? max)%Z eqn:E; intros [= <-].
  - now apply Z.leb_le.
  - unfold slice0, str_length. rewrite length_take. lia.
Qed.

Lemma clampString_take o max x :
  (0 <= max)%Z -> clampString (eng P) o max = Ok x ->
  exists s,
    toString (eng P) (match o with Some JNull | None => JStr [] | Some v => v end) = Ok s
    /\ x = slice0 max s.
Proof.
  intros Hmax. unfold clampString.
  destruct (toString _ _) as [y|e]; cbn [mbind result_bind]; [|discriminate].
  exists y. split; [reflexivity|].
  destruct (str_length y <=? max)%Z eqn:Hlen; injection H as <-; [|reflexivity].
  apply Z.leb_le in Hlen. unfold str_length in Hlen.
  unfold slice0. symmetry. apply take_ge. lia.
Qed.

(** What goes out for one call, whatever becomes of it. *)
Lemma chat_request_sends apiKey baseUrl url missing c w r w' :
  chat_request P apiKey baseUrl url missing c w = (r, w') ->
  fetches w'
  = fetches w
    ++ match apiKey with
       | Some (k :: key) => [request_for c (str_or baseUrl url, k :: key)]
       | _ => []
       end.
Proof.
  unfold chat_request.
  destruct apiKey as [[|k key]|]; cbn [str_truthy negb];
    try (intros [= <- <-]; now rewrite app_nil_r).
  unfold mbind at 1, M_bind at 1, fetchWithTimeout. cbn [default from_option].
  unfold id, request_for, DEFAULT_TIMEOUT_MS. cbn [fst snd].
  destruct (fetch P _ _) as [e|status text]; [intros [= <- <-]; reflexivity|].
  destruct (negb (status_ok status)).
  - unfold mbind, M_bind, lift, throw.
    destruct (new_Error _ _); intros [= <- <-]; reflexivity.
  - intros [= <- <-]. reflexivity.
Qed.

Lemma callChatCompletion_sends c w r w' :
  callChatCompletion P c w = (r, w') ->
  fetches w' = fetches w ++ requests_for P [c].
Proof.
  unfold callChatCompletion, mbind, M_bind, log_call, requests_for, endpoint.
  cbn [flat_map]. rewrite app_nil_r.
  destruct (decide (c_provider c = lit "openrouter")) as [E1|N1].
  { intros H. apply chat_request_sends in H. cbn [fetches] in H. rewrite H.
    destruct (OPENROUTER_API_KEY (env P)) as [[|k key]|]; reflexivity. }
  destruct (decide (c_provider c = lit "openai")) as [E2|N2].
  { intros H. apply chat_request_sends in H. cbn [fetches] in H. rewrite H.
    destruct (OPENAI_API_KEY (env P)) as [[|k key]|]; reflexivity. }
  intros [= <- <-]. cbn. now rewrite app_nil_r.
Qed.

(** A call that returns has sent its request and had an answer with a
    status from 200 to 299; what it returns is read from the text of that
    answer. *)
Lemma callChatCompletion_returns c w out w' :
  callChatCompletion P c w = (Ok out, w') ->
  exists to status text,
    endpoint P (c_provider c) = Some to
    /\ fetch P (length (fetches w)) (request_for c to) = FetchResponds status text
    /\ status_ok status = true
    /\ raw out = Some (message_content text)
    /\ usage out = get (safeJsonParse text) "usage".
Proof.
  assert (Hreq : forall apiKey baseUrl url missing w0,
             chat_request P apiKey baseUrl url missing c w0 = (Ok out, w') ->
             exists k key status text,
               apiKey = Some (k :: key)
               /\ fetch P (length (fetches w0)) (request_for c (str_or baseUrl url, k :: key))
                  = FetchResponds status text
               /\ status_ok status = true
               /\ raw out = Some (message_content text)
               /\ usage out = get (safeJsonParse text) "usage").
  { intros apiKey baseUrl url missing w0. unfold chat_request.
    destruct apiKey as [[|k key]|]; cbn [str_truthy negb]; try discriminate.
    unfold mbind at 1, M_bind at 1, fetchWithTimeout. cbn [default from_option].
    unfold id. fold (request_for c (str_or baseUrl url, k :: key)).
    change {| f_url := _; f_authorization := _; f_body := _; f_timeout := _ |}
      with (request_for c (str_or baseUrl url, k :: key)).
    destruct (fetch P _ _) as [e|status text] eqn:Ef; [discriminate|].
    destruct (status_ok status) eqn:Hok; cbn [negb].
    - intros [= <- _]. exists k, key, status, text. repeat split; assumption.
    - unfold mbind, M_bind, lift, throw. destruct (new_Error _ _); discriminate. }
  unfold callChatCompletion, mbind, M_bind, log_call, endpoint.
  destruct (decide (c_provider c = lit "openrouter")) as [E1|N1].
  { intros H. apply Hreq in H as (k & key & status & text & -> & Hf & H').
    cbn [fetches] in Hf. eexists _, status, text. split; [reflexivity|].
    split; [exact Hf | exact H']. }
  destruct (decide (c_provider c = lit "openai")) as [E2|N2]; [|discriminate].
  intros H. apply Hreq in H as (k & key & status & text & -> & Hf & H').
  cbn [fetches] in Hf. eexists _, status, text. split; [reflexivity|].
  split; [exact Hf | exact H'].
Qed.

Lemma message_content_not_null text : message_content text <> JNull.
Proof.
  unfold message_content, js_or_else.
  destruct (oget _ _) as [v|]; [|discriminate].
  destruct (truthy v) eqn:Tv; [|discriminate]. intros ->. discriminate Tv.
Qed.

(** [run] sends what its one call sends. *)
Lemma run_sends provider p temperature modelName w r w' :
  run P provider p temperature modelName w = (r, w') ->
  fetches w'
  = fetches w ++ requests_for P [{| c_provider := provider; c_model := modelName;
                                   c_system := system p; c_user := user p;
                                   c_temperature := temperature |}].
Proof.
  unfold run, mbind at 1, M_bind at 1.
  destruct (callChatCompletion P _ w) as [[out|e] w1] eqn:Ec; intros H.
  - apply callChatCompletion_sends in Ec. rewrite <- Ec.
    revert H. unfold mbind, M_bind, lift.
    destruct (extractJson _ _) as [v|e]; [|now intros [= <- <-]].
    destruct (negb (truthy v)); [|now intros [= <- <-]].
    destruct (clampString _ _ _); now intros [= <- <-].
  - injection H as <- <-. now apply callChatCompletion_sends in Ec.
Qed.

(** What a successful [run] hands back: it has had an answer with a status
    from 200 to 299 to its request, and [parsed] is the truthy value the
    extractor finds in the text of the model, or the wrapper around the
    first 50000 units of that text. *)
Lemma run_returns provider p temperature modelName w out w' :
  run P provider p temperature modelName w = (Ok out, w') ->
  let c := {| c_provider := provider; c_model := modelName;
              c_system := system p; c_user := user p;
              c_temperature := temperature |} in
  exists to status text v,
    endpoint P provider = Some to
    /\ fetch P (length (fetches w)) (request_for c to) = FetchResponds status text
    /\ status_ok status = true
    /\ run_usage out = get (safeJsonParse text) "usage"
    /\ extractJson (eng P) (Some (message_content text)) = Ok v
    /\ (if truthy v then parsed out = v
        else exists x,
               toString (eng P) (message_content text) = Ok x
               /\ parsed out = JObj [(lit "raw", JStr (slice0 50000 x))])
    /\ truthy (parsed out) = true.
Proof.
  cbv zeta. unfold run, mbind at 1, M_bind at 1.
  destruct (callChatCompletion P _ w) as [[o|e] w1] eqn:Ec; [|discriminate].
  apply callChatCompletion_returns in Ec
    as (to & status & text & Hto & Hf & Hok & Hraw & Hus).
  cbn [c_provider] in Hto. unfold mbind, M_bind, lift, mret, M_ret. rewrite Hraw.
  destruct (extractJson (eng P) (Some (message_content text))) as [v|e] eqn:Ev;
    [|discriminate].
  destruct (truthy v) eqn:Tv; cbn [negb].
  - intros [= <- <-]. exists to, status, text, v. rewrite Tv.
    cbn [run_usage parsed]. repeat split; assumption.
  - destruct (clampString (eng P) (Some (message_content text)) 50000)
      as [t|e] eqn:Ecl; [|discriminate].
    intros [= <- <-]. exists to, status, text, v. rewrite Tv.
    cbn [run_usage parsed].
    apply clampString_take in Ecl as (x & Hx & ->); [|lia].
    assert (Hx' : toString (eng P) (message_content text) = Ok x).
    { pose proof (message_content_not_null text) as Hnn.
      destruct (message_content text); try exact Hx. now destruct Hnn. }
    repeat split; try assumption. exists x. split; [exact Hx' | reflexivity].
Qed.

(** The second stage: the primary run, the fallback run when that throws,
    the print of the 200 body when a run returned; 502 when the fallback
    run or the print throws.  The 200 names the primary model whichever
    call succeeded. *)
Lemma respond_cases hs task payload p w :
  let run1 := run P (provider_of P) p (temperature_of payload) (primary_model P) in
  let run2 := run P (provider_of P) p (temperature_of payload) (fallback_model P) in
  let answer out :=
    match JSON_stringify (eng P) (success_value P task (primary_model P) out) with
    | Ok body => {| statusCode := 200; res_headers := hs; res_body := body |}
    | Throw e => {| statusCode := 502; res_headers := hs;
                    res_body := upstream_failure_body e |}
    end in
  respond P hs task payload p w
  = match run1 w with
    | (Ok out, w1) => (Ok (answer out), w1)
    | (Throw _, w1) =>
      match run2 w1 with
      | (Ok out, w2) => (Ok (answer out), w2)
      | (Throw e2, w2) =>
        (Ok {| statusCode := 502; res_headers := hs;
               res_body := upstream_failure_body e2 |}, w2)
      end
    end.
Proof.
  cbv zeta. unfold respond, try_catch, mbind, M_bind, mret, M_ret, lift, success_value.
  destruct (run P _ p _ (primary_model P) w) as [[out|e] w1].
  { destruct (JSON_stringify _ _); reflexivity. }
  destruct (run P _ p _ (fallback_model P) w1) as [[out|e2] w2]; [|reflexivity].
  destruct (JSON_stringify _ _); reflexivity.
Qed.

Lemma handler_proceed ev w hs task payload p w0 :
  validate P ev w = (Ok (Proceed hs task payload p), w0) ->
  handler P ev w = respond P hs task payload p w0.
Proof. intros H. unfold handler, mbind, M_bind. now rewrite H. Qed.

Lemma handler_early ev w r w0 :
  validate P ev w = (Ok (Early r), w0) -> handler P ev w = (Ok r, w0).
Proof. intros H. unfold handler, mbind, M_bind. now rewrite H. Qed.

End Handler.

(** ** What holds of the prompt builder and of failures *)

Section Failures.

Variable P : platform.

Implicit Types (w : world) (ev : event) (c : chat_call).

(** When [buildPrompts] returns, it returns a pair for the four tasks and
    [null] for every other task. *)
Lemma buildPrompts_known E task payload meta r :
  buildPrompts E task payload meta = Ok r ->
  (is_Some r
   <-> task = lit "panorama_json_to_report" \/ task = lit "ceph_treatment_planner"
       \/ task = lit "voice_to_report" \/ task = lit "ask_radiology").
Proof.
  unfold buildPrompts.
  destruct (locale E payload meta) as [l|e]; cbn [mbind result_bind]; [|discriminate].
  unfold prompts_for.
  destruct (decide (task = lit "panorama_json_to_report")) as [E1|H1].
  { destruct (JSON_stringify E _) as [u|e]; cbn [mbind result_bind]; [|discriminate].
    intros [= <-]; split; [intros _; now left | intros _; eexists; reflexivity]. }
  destruct (decide (task = lit "ceph_treatment_planner")) as [E2|H2].
  { destruct (JSON_stringify E _) as [u|e]; cbn [mbind result_bind]; [|discriminate].
    intros [= <-]; split; [intros _; now right; left | intros _; eexists; reflexivity]. }
  destruct (decide (task = lit "voice_to_report")) as [E3|H3].
  { destruct (toString E (js_or_else (js_or (oget payload "transcript") _) _))
      as [t1|e]; cbn [mbind result_bind]; [|discriminate].
    destruct (toString E (js_or_else (oget payload "template") _))
      as [t2|e]; cbn [mbind result_bind]; [|discriminate].
    intros [= <-]; split; [intros _; now right; right; left | intros _; eexists; reflexivity]. }
  destruct (decide (task = lit "ask_radiology")) as [E4|H4].
  { destruct (toString E (js_or_else (js_or (oget payload "question") _) _))
      as [t1|e]; cbn [mbind result_bind]; [|discriminate].
    intros [= <-]; split; [intros _; now right; right; right | intros _; eexists; reflexivity]. }
  intros [= <-]. split; [intros [? [=]]|].
  intros [Et|[Et|[Et|Et]]]; exfalso;
    [exact (H1 Et) | exact (H2 Et) | exact (H3 Et) | exact (H4 Et)].
Qed.

(** The reasons for which a model call fails: unknown provider, missing key,
    an exception of the network (failure, abort by the timer), a status
    outside 200..299.  Each makes [callChatCompletion] throw. *)
Lemma chat_request_throws apiKey baseUrl url missing c w :
  str_truthy apiKey = false
  \/ (forall rq, exists e, fetch P (length (fetches w)) rq = FetchFails e)
  \/ (forall rq, exists status text,
        fetch P (length (fetches w)) rq = FetchResponds status text
        /\ status_ok status = false) ->
  exists e w', chat_request P apiKey baseUrl url missing c w = (Throw e, w').
Proof.
  unfold chat_request. intros [Hkey | H].
  - rewrite Hkey. cbn [negb]. eexists _, _. reflexivity.
  - destruct (negb (str_truthy apiKey)); [eexists _, _; reflexivity|].
    unfold mbind at 1, M_bind at 1, fetchWithTimeout.
    match goal with |- context [fetch P _ ?rq] => set (q := rq) end.
    destruct H as [H | H].
    + destruct (H q) as [e ->]. eexists _, _. reflexivity.
    + destruct (H q) as (status & text & -> & Hok). rewrite Hok. cbn [negb].
      unfold mbind, M_bind, lift, throw.
      destruct (new_Error _ _); eexists _, _; reflexivity.
Qed.

Lemma callChatCompletion_throws c w :
  (c_provider c <> lit "openrouter" /\ c_provider c <> lit "openai")
  \/ (c_provider c = lit "openrouter" /\ str_truthy (OPENROUTER_API_KEY (env P)) = false)
  \/ (c_provider c = lit "openai" /\ str_truthy (OPENAI_API_KEY (env P)) = false)
  \/ (forall rq, exists e, fetch P (length (fetches w)) rq = FetchFails e)
  \/ (forall rq, exists status text,
        fetch P (length (fetches w)) rq = FetchResponds status text
        /\ status_ok status = false) ->
  exists e w', callChatCompletion P c w = (Throw e, w').
Proof.
  intros H. unfold callChatCompletion, mbind, M_bind, log_call.
  destruct (decide (c_provider c = lit "openrouter")) as [E1|N1].
  - apply chat_request_throws. cbn [fetches].
    destruct H as [[N1 _]|[[_ Hk]|[[E2 _]|[Hf|Hs]]]];
      [contradiction | now left | | now right; left | now right; right].
    rewrite E1 in E2. vm_compute in E2. discriminate.
  - destruct (decide (c_provider c = lit "openai")) as [E2|N2].
    + apply chat_request_throws. cbn [fetches].
      destruct H as [[_ N2]|[[E1 _]|[[_ Hk]|[Hf|Hs]]]];
        [contradiction | contradiction | now left | now right; left | now right; right].
    + eexists _, _. reflexivity.
Qed.

Lemma run_throws provider p temperature modelName w e w' :
  callChatCompletion P {| c_provider := provider; c_model := modelName;
                          c_system := system p; c_user := user p;
                          c_temperature := temperature |} w = (Throw e, w') ->
  run P provider p temperature modelName w = (Throw e, w').
Proof. intros H. unfold run, mbind at 1, M_bind at 1. now rewrite H. Qed.

(** Every answer of the handler other than the 204 and the 200 has a body
    with [ok:false] and an [error] string. *)
Lemma handler_failure_body ev w resp w' :
  handler P ev w = (Ok resp, w') ->
  statusCode resp = 204%Z \/ statusCode resp = 200%Z
  \/ exists msg more,
       res_body resp
       = stringify (JObj ((lit "ok", JBool false) :: (lit "error", JStr msg) :: more)).
Proof.
  assert (Herr : forall msg, exists m more,
             error_body msg
             = stringify (JObj ((lit "ok", JBool false) :: (lit "error", JStr m) :: more)))
    by (intros msg; eexists _, _; reflexivity).
  unfold handler, mbind at 1, M_bind at 1.
  destruct (validate P ev w) as [[[r|hs task payload p]|e] w0] eqn:Hv; [| |discriminate].
  - intros [= <- <-]. revert Hv. unfold validate.
    repeat case_decide;
      [intros [= <- <-]; auto | intros [= <- <-]; right; right; apply Herr |].
    destruct (headers ev) as [h|]; [|discriminate].
    unfold mbind at 1, M_bind at 1.
    destruct (rateLimit _ w) as [[[] |e] w1]; [| |discriminate]; cbn [negb];
      [|intros [= <- <-]; right; right; apply Herr].
    destruct (_ >? _)%Z; [intros [= <- <-]; right; right; apply Herr|].
    unfold mbind at 1, M_bind at 1, parse_body.
    destruct (negb _); [intros [= <- <-]; right; right; apply Herr|].
    unfold mbind, M_bind, lift.
    destruct (toString _ _) as [t|e]; [|discriminate].
    destruct (buildPrompts _ _ _ _) as [[p|]|e]; [discriminate | | discriminate].
    intros [= <- <-]. right; right; apply Herr.
  - rewrite respond_cases. cbv zeta.
    destruct (run P _ p _ (primary_model P) w0) as [[out|e] w1].
    { intros [= <- <-]. destruct (JSON_stringify _ _); cbn [statusCode res_body]; auto.
      right; right. eexists _, _. reflexivity. }
    destruct (run P _ p _ (fallback_model P) w1) as [[out|e2] w2];
      intros [= <- <-].
    + destruct (JSON_stringify _ _); cbn [statusCode res_body]; auto.
      right; right. eexists _, _. reflexivity.
    + right; right. eexists _, _. reflexivity.
Qed.

End Failures.

(** ** The handler on sample requests *)

(** C1.  The primary call meets HTTP 500 and the fallback call succeeds: the
    handler answers 200, made two calls, the second with the fallback model,
    and reports the primary model as [model_used]. *)
Theorem model_used_names_primary_after_fallback :
  exists resp w answer,
    handler P_500_then_ok ask fresh = (Ok resp, w)
    /\ statusCode resp = 200%Z
    /\ List.map c_model (calls w)
       = [primary_model P_500_then_ok; fallback_model P_500_then_ok]
    /\ JSON_parse (res_body resp) = Some answer
    /\ get answer "model_used" = Some (JStr (primary_model P_500_then_ok))
    /\ primary_model P_500_then_ok <> fallback_model P_500_then_ok.
Proof.
  eexists _, _, _. split; [vm_compute; reflexivity|].
  split; [reflexivity|]. split; [vm_compute; reflexivity|].
  split; [vm_compute; reflexivity|]. split; [vm_compute; reflexivity|].
  vm_compute. discriminate.
Qed.

(** C2.  A POST whose [task] is an object with an own property [toString]
    makes the handler throw before its [try]; so does a POST event without
    [headers]. *)
Theorem handler_throws_outside_try :
  (exists w,
     handler P_500_then_ok (post (qlit "{'task':{'toString':1}}")) fresh
     = (Throw (TypeError "toString is not a function"), w))
  /\
  (exists w,
     handler P_500_then_ok
       {| httpMethod := lit "POST"; headers := None; body := Some (lit "{}") |} fresh
     = (Throw (TypeError "Cannot read properties of undefined"), w)).
Proof.
  split; eexists; vm_compute; reflexivity.
Qed.

(** C7.  [buildPrompts] throws when a text field of the payload, or the
    language field, is an object with an own property [toString]; for a
    known task and for an unknown one. *)
Theorem buildPrompts_throws E :
  buildPrompts E (lit "ask_radiology")
    (Some (JObj [(lit "question", JObj [(lit "toString", JNum (Dec false [1] 1))])]))
    (Some (JObj []))
  = Throw (TypeError "toString is not a function")
  /\
  buildPrompts E (lit "no_such_task")
    (Some (JObj []))
    (Some (JObj [(lit "lang", JObj [(lit "toString", JNum (Dec false [1] 1))])]))
  = Throw (TypeError "toString is not a function").
Proof.
  split; vm_compute; reflexivity.
Qed.

(** ** The locale *)

Section Locale.

Implicit Types (s : ustring) (a b c : N).





End Locale.




(** ** The stages of the handler *)

Section Stages.

Variable P : platform.

Implicit Types (w : world) (ev : event) (p : prompts) (e : js_error).

(** What the first stage does with a POST that has headers and passes the
    rate limiter. *)
Lemma validate_post ev w h w1 :
  httpMethod ev = lit "POST" ->
  headers ev = Some h ->
  rateLimit (client_ip h) w = (Ok true, w1) ->
  validate P ev w
  = (let hs := response_headers ev in
     let rawBody := str_or (body ev) [] in
     if (str_length rawBody >? MAX_BODY_CHARS)%Z then
       mret (Early {| statusCode := 413; res_headers := hs;
                      res_body := error_body "Payload too large" |})
     else
       req ← parse_body rawBody;
       if negb (truthy req) then
         mret (Early {| statusCode := 400; res_headers := hs;
                        res_body := error_body "Invalid JSON" |})
       else
         task0 ← lift (toString (eng P) (js_or_else (get req "task") (JStr [])));
         let task := trim task0 in
         let payload := js_or_else (get req "payload") (JObj []) in
         let meta := js_or_else (get req "meta") (JObj []) in
         built ← lift (buildPrompts (eng P) task (Some payload) (Some meta));
         match built with
         | None =>
           mret (Early {| statusCode := 400; res_headers := hs;
                          res_body := error_body "Unknown task" |})
         | Some p => mret (Proceed hs task payload p)
         end) w1.
Proof.
  intros Hm Hh Hrate. unfold validate. rewrite Hm, Hh.
  destruct (decide (lit "POST" = lit "OPTIONS")) as [E|_]; [vm_compute in E; discriminate|].
  destruct (decide (lit "POST" <> lit "POST")) as [E|_]; [contradiction|].
  unfold mbind at 1, M_bind at 1. rewrite Hrate. reflexivity.
Qed.

(** An early answer is never a 200. *)
Lemma validate_early ev w r w0 :
  validate P ev w = (Ok (Early r), w0) -> statusCode r <> 200%Z.
Proof.
  unfold validate.
  repeat case_decide; [intros [= <- <-]; discriminate ..|].
  destruct (headers ev) as [h|]; [|discriminate].
  unfold mbind at 1, M_bind at 1.
  destruct (rateLimit _ w) as [[[] |e] w1]; [| |discriminate]; cbn [negb];
    [|intros [= <- <-]; discriminate].
  destruct (_ >? _)%Z; [intros [= <- <-]; discriminate|].
  unfold mbind at 1, M_bind at 1, parse_body.
  destruct (negb _); [intros [= <- <-]; discriminate|].
  unfold mbind, M_bind, lift.
  destruct (toString _ _) as [t|e]; [|discriminate].
  destruct (buildPrompts _ _ _ _) as [[p|]|e]; [discriminate | | discriminate].
  intros [= <- <-]. discriminate.
Qed.

(** The first stage makes no call and sends nothing. *)
Lemma validate_quiet ev w r w0 :
  validate P ev w = (r, w0) -> calls w0 = calls w /\ fetches w0 = fetches w.
Proof.
  unfold validate.
  repeat case_decide; [intros [= <- <-]; split; reflexivity ..|].
  destruct (headers ev) as [h|]; [|intros [= <- <-]; split; reflexivity].
  unfold mbind at 1, M_bind at 1.
  destruct (rateLimit _ w) as [[allowed|e] w1] eqn:Hr.
  2:{ intros [= <- <-]. revert Hr.
      unfold rateLimit, mbind, M_bind, now, buckets_get, buckets_set, mret, M_ret.
      discriminate. }
  assert (Hq : calls w1 = calls w /\ fetches w1 = fetches w).
  { revert Hr.
    unfold rateLimit, mbind, M_bind, now, buckets_get, buckets_set, mret, M_ret.
    intros [= _ <-]. split; reflexivity. }
  destruct allowed; cbn [negb]; [|intros [= <- <-]; exact Hq].
  destruct (_ >? _)%Z; [intros [= <- <-]; exact Hq|].
  unfold mbind at 1, M_bind at 1, parse_body.
  destruct (negb _); [intros [= <- <-]; exact Hq|].
  unfold mbind, M_bind, lift.
  destruct (toString _ _) as [t|e]; [|intros [= <- <-]; exact Hq].
  destruct (buildPrompts _ _ _ _) as [[p|]|e]; intros [= <- <-]; exact Hq.
Qed.

End Stages.

(** C9, as the code has it.  A POST with headers that the rate limiter lets
    through is answered 413 when its raw body is longer than 250000
    characters, and no body has been handed to [JSON.parse] by then; it is
    answered 400 when the body is within the cap and is not JSON, which the
    parse of the body, made after the check, finds out. *)
Theorem body_cap_then_parse P ev w h w1 :
  httpMethod ev = lit "POST" ->
  headers ev = Some h ->
  rateLimit (client_ip h) w = (Ok true, w1) ->
  body_parses w1 = body_parses w
  /\ ((str_length (str_or (body ev) []) > 250000)%Z ->
      handler P ev w
      = (Ok {| statusCode := 413; res_headers := response_headers ev;
               res_body := error_body "Payload too large" |}, w1))
  /\ ((str_length (str_or (body ev) []) <= 250000)%Z ->
      JSON_parse (str_or (body ev) []) = None ->
      handler P ev w
      = (Ok {| statusCode := 400; res_headers := response_headers ev;
               res_body := error_body "Invalid JSON" |},
         with_body_parse (str_or (body ev) []) w1)).
Proof.
  intros Hm Hh Hrate.
  pose proof (validate_post P ev w h w1 Hm Hh Hrate) as Hv. cbv zeta in Hv.
  split; [|split].
  - revert Hrate. unfold rateLimit, mbind, M_bind, now, buckets_get, buckets_set, mret, M_ret.
    intros [= _ <-]. reflexivity.
  - intros Hlong. apply handler_early. rewrite Hv.
    replace (_ >? MAX_BODY_CHARS)%Z with true; [reflexivity|].
    symmetry. rewrite Z.gtb_ltb. apply Z.ltb_lt. unfold MAX_BODY_CHARS. lia.
  - intros Hshort Hbad. apply handler_early. rewrite Hv.
    replace (_ >? MAX_BODY_CHARS)%Z with false.
    + unfold mbind, M_bind, parse_body, safeJsonParse. rewrite Hbad. reflexivity.
    + symmetry. rewrite Z.gtb_ltb. apply Z.ltb_ge. unfold MAX_BODY_CHARS. lia.
Qed.

Lemma body_cap_then_parse_witness :
  let after := with_bucket (lit "203.0.113.7") {| start := 1000%Z; count := 1%Z |} fresh in
  handler P_500_then_ok (post oversized) fresh
  = (Ok {| statusCode := 413; res_headers := response_headers (post oversized);
           res_body := error_body "Payload too large" |}, after)
  /\ body_parses after = []
  /\ handler P_500_then_ok (post (lit "{task: ask_radiology")) fresh
     = (Ok {| statusCode := 400;
              res_headers := response_headers (post (lit "{task: ask_radiology"));
              res_body := error_body "Invalid JSON" |},
        with_body_parse (lit "{task: ask_radiology") after).
Proof.
  intros after.
  pose proof (body_cap_then_parse P_500_then_ok (post oversized) fresh
                [(lit "x-forwarded-for", lit "203.0.113.7")] after
                eq_refl eq_refl (rateLimit_fresh _ fresh eq_refl)) as (Hnone & Hbig & _).
  pose proof (body_cap_then_parse P_500_then_ok (post (lit "{task: ask_radiology")) fresh
                [(lit "x-forwarded-for", lit "203.0.113.7")] after
                eq_refl eq_refl (rateLimit_fresh _ fresh eq_refl)) as (_ & _ & Hbad).
  split; [|split].
  - apply Hbig.
    unfold post, oversized, str_length. cbn [body str_or].
    destruct (repeat 120 (N.to_nat 250001)) eqn:E.
    + apply (f_equal (@length N)) in E. rewrite repeat_length in E. cbn in E. lia.
    + rewrite <- E, repeat_length. lia.
  - exact Hnone.
  - apply Hbad.
    + vm_compute. discriminate.
    + vm_compute. reflexivity.
Defined.

(** C9 as stated fails: a POST with an oversized body from a client that has
    used up its window is answered 429, not 413. *)
Lemma oversized_body_of_limited_client :
  httpMethod (post oversized) = lit "POST"
  /\ (str_length (str_or (body (post oversized)) []) > 250000)%Z
  /\ exists w,
       handler P_500_then_ok (post oversized) exhausted
       = (Ok {| statusCode := 429; res_headers := response_headers (post oversized);
                res_body := error_body "Rate limit exceeded" |}, w).
Proof.
  split; [reflexivity|]. split.
  - vm_compute. reflexivity.
  - eexists. vm_compute. reflexivity.
Qed.


(** Whatever makes the primary run throw, the fallback run follows, once:
    the two calls and what went out for them. *)
Lemma respond_after_failed_run P hs task payload p w0 e w1 :
  run P (provider_of P) p (temperature_of payload) (primary_model P) w0 = (Throw e, w1) ->
  exists r w2,
    run P (provider_of P) p (temperature_of payload) (fallback_model P) w1 = (r, w2)
    /\ calls w2 = calls w0 ++ [call_for P payload p (primary_model P);
                               call_for P payload p (fallback_model P)]
    /\ fetches w2
       = fetches w0 ++ requests_for P [call_for P payload p (primary_model P);
                                       call_for P payload p (fallback_model P)]
    /\ respond P hs task payload p w0
       = (Ok match r with
             | Ok out =>
               match JSON_stringify (eng P)
                       (success_value P task (primary_model P) out) with
               | Ok body =>
                 {| statusCode := 200; res_headers := hs; res_body := body |}
               | Throw e3 =>
                 {| statusCode := 502; res_headers := hs;
                    res_body := upstream_failure_body e3 |}
               end
             | Throw e2 =>
               {| statusCode := 502; res_headers := hs;
                  res_body := upstream_failure_body e2 |}
             end, w2).
Proof.
  intros Hrun1.
  pose proof (run_calls P _ _ _ _ _ _ _ Hrun1) as Hc1.
  pose proof (run_sends P _ _ _ _ _ _ _ Hrun1) as Hf1.
  destruct (run P (provider_of P) p (temperature_of payload) (fallback_model P) w1)
    as [r w2] eqn:Hrun2.
  pose proof (run_calls P _ _ _ _ _ _ _ Hrun2) as Hc2.
  pose proof (run_sends P _ _ _ _ _ _ _ Hrun2) as Hf2.
  exists r, w2. split; [reflexivity|]. split; [|split].
  - rewrite Hc2, Hc1, <- app_assoc. reflexivity.
  - rewrite Hf2, Hf1, <- app_assoc. unfold requests_for, call_for.
    cbn [flat_map]. rewrite !app_nil_r. reflexivity.
  - rewrite respond_cases. cbv zeta. rewrite Hrun1, Hrun2.
    destruct r; reflexivity.
Qed.

Lemma requests_for_two P payload p :
  requests_for P [call_for P payload p (primary_model P);
                  call_for P payload p (fallback_model P)]
  = match endpoint P (provider_of P) with
    | Some to => [request_for (call_for P payload p (primary_model P)) to;
                  request_for (call_for P payload p (fallback_model P)) to]
    | None => []
    end.
Proof.
  unfold requests_for, call_for. cbn [flat_map c_provider].
  destruct (endpoint P (provider_of P)); reflexivity.
Qed.

(** C4 (amended).  When the primary call of the model fails, for whatever
    reason, the handler calls the model once more, with the fallback model
    and the same provider, prompts and temperature, and not again.  When the
    provider is known and has a key, exactly two requests have gone out, the
    first for the primary and the second for the fallback call, to the same
    address with the same key, their bodies alike but for the model name;
    otherwise none has gone out.  When the fallback call fails as well, or
    the fallback run throws for another reason, the answer is 502 with the
    stringified error as details; when the run returns, the answer is 200,
    unless the print of the body overflows the stack of the engine, which
    also gives 502. *)
Theorem fallback_exactly_once P ev w hs task payload p w0 e w1 :
  validate P ev w = (Ok (Proceed hs task payload p), w0) ->
  callChatCompletion P (call_for P payload p (primary_model P)) w0 = (Throw e, w1) ->
  exists r w2,
    run P (provider_of P) p (temperature_of payload) (fallback_model P) w1 = (r, w2)
    /\ (forall e2 w3,
          callChatCompletion P (call_for P payload p (fallback_model P)) w1
          = (Throw e2, w3) ->
          r = Throw e2)
    /\ calls w2 = calls w ++ [call_for P payload p (primary_model P);
                              call_for P payload p (fallback_model P)]
    /\ fetches w2
       = fetches w
         ++ match endpoint P (provider_of P) with
            | Some to => [request_for (call_for P payload p (primary_model P)) to;
                          request_for (call_for P payload p (fallback_model P)) to]
            | None => []
            end
    /\ handler P ev w
       = (Ok match r with
             | Ok out =>
               match JSON_stringify (eng P)
                       (success_value P task (primary_model P) out) with
               | Ok body =>
                 {| statusCode := 200; res_headers := hs; res_body := body |}
               | Throw e3 =>
                 {| statusCode := 502; res_headers := hs;
                    res_body := upstream_failure_body e3 |}
               end
             | Throw e2 =>
               {| statusCode := 502; res_headers := hs;
                  res_body := upstream_failure_body e2 |}
             end, w2).
Proof.
  intros Hv Hcall.
  destruct (validate_quiet P ev w _ _ Hv) as [Hc0 Hf0].
  rewrite (handler_proceed P ev w hs task payload p w0 Hv), <- Hc0, <- Hf0.
  rewrite <- requests_for_two.
  destruct (respond_after_failed_run P hs task payload p w0 e w1)
    as (r & w2 & Hrun2 & H); [apply run_throws; exact Hcall|].
  exists r, w2. split; [exact Hrun2|]. split; [|exact H].
  intros e2 w3 Hcall2. apply (run_throws P) in Hcall2.
  unfold call_for in Hcall2. cbn [c_provider c_model c_system c_user c_temperature] in Hcall2.
  rewrite Hrun2 in Hcall2. now injection Hcall2.
Qed.

Lemma fallback_exactly_once_witness :
  exists w2 resp rq1 rq2 body1 body2,
    handler P_both_fail ask fresh = (Ok resp, w2)
    /\ statusCode resp = 502%Z
    /\ res_body resp = upstream_failure_body (Error (lit "Upstream error: 503"))
    /\ List.map c_model (calls w2)
       = [lit "google/gemma-3-12b-it:free"; lit "google/gemma-3-4b-it:free"]
    /\ fetches w2 = [rq1; rq2]
    /\ f_url rq1 = lit "https://openrouter.ai/api/v1/chat/completions"
    /\ f_url rq2 = f_url rq1
    /\ f_authorization rq2 = f_authorization rq1
    /\ JSON_parse (f_body rq1) = Some body1
    /\ JSON_parse (f_body rq2) = Some body2
    /\ get body1 "model" = Some (JStr (lit "google/gemma-3-12b-it:free"))
    /\ get body2 "model" = Some (JStr (lit "google/gemma-3-4b-it:free"))
    /\ get body2 "messages" = get body1 "messages"
    /\ get body2 "temperature" = get body1 "temperature".
Proof.
  destruct (validate P_both_fail ask fresh) as [[[r0|hs task payload p]|e0] w0] eqn:Hv;
    try (exfalso; vm_compute in Hv; discriminate).
  destruct (callChatCompletion P_both_fail
              (call_for P_both_fail payload p (primary_model P_both_fail)) w0)
    as [[out|e] w1] eqn:Hcall.
  { exfalso. vm_compute in Hv. injection Hv as <- <- <- <- <-.
    vm_compute in Hcall. discriminate. }
  destruct (fallback_exactly_once P_both_fail ask fresh hs task payload p w0 e w1
              Hv Hcall) as (r & w2 & Hrun2 & _ & Hc & Hf & Hh).
  vm_compute in Hv. injection Hv as <- <- <- <- <-.
  vm_compute in Hcall. injection Hcall as <- <-.
  vm_compute in Hrun2. injection Hrun2 as <- <-.
  eexists _, _, _, _, _, _. split; [exact Hh|].
  split; [reflexivity|]. split; [reflexivity|].
  split; [vm_compute; reflexivity|]. split; [vm_compute; reflexivity|].
  split; [vm_compute; reflexivity|]. split; [reflexivity|]. split; [reflexivity|].
  split; [vm_compute; reflexivity|]. split; [vm_compute; reflexivity|].
  split; [vm_compute; reflexivity|]. split; [vm_compute; reflexivity|].
  split; vm_compute; reflexivity.
Defined.

(** C8 (amended).  A 200 response follows an upstream answer with a status
    from 200 to 299 to the last request of the invocation.  Its [result] is
    made from the text of the model in that answer ([choices[0].message.content],
    or the empty string): it is the value the extractor recovers from the
    text when that is truthy, and otherwise the wrapper [{ raw: t }] around
    the first 50000 units of the text.  Either way it is truthy.  It need
    not be an object: it is whatever JSON value the text holds, a number when
    the text is a numeral, and the body shows it as [null] when that number
    is beyond the doubles. *)
Theorem result_is_truthy_or_wrapper P ev w resp w' :
  handler P ev w = (Ok resp, w') ->
  statusCode resp = 200%Z ->
  exists earlier rq status text v result task,
    fetches w' = fetches w ++ earlier ++ [rq]
    /\ (length earlier <= 1)%nat
    /\ fetch P (length (fetches w ++ earlier)) rq = FetchResponds status text
    /\ status_ok status = true
    /\ extractJson (eng P) (Some (message_content text)) = Ok v
    /\ (if truthy v then result = v
        else exists x,
               toString (eng P) (message_content text) = Ok x
               /\ result = JObj [(lit "raw", JStr (slice0 50000 x))])
    /\ truthy result = true
    /\ res_body resp
       = stringify (JObj [
           (lit "ok", JBool true);
           (lit "task", JStr task);
           (lit "provider", JStr (provider_of P));
           (lit "model_used", JStr (primary_model P));
           (lit "result", result);
           (lit "usage", js_or_else (get (safeJsonParse text) "usage") JNull) ]).
Proof.
  intros Hh H200. unfold handler, mbind, M_bind in Hh.
  destruct (validate P ev w) as [[[r|hs task payload p]|e] w0] eqn:Hv; [| |discriminate].
  { injection Hh as <- <-. now apply validate_early in Hv. }
  destruct (validate_quiet P ev w _ _ Hv) as [_ Hf0].
  rewrite respond_cases in Hh. cbv zeta in Hh.
  assert (Hanswer : forall out w1 earlier,
    run P (provider_of P) p (temperature_of payload)
      (match earlier with [] => primary_model P | _ => fallback_model P end)
      (if earlier is [] then w0 else w1) = (Ok out, w') ->
    fetches (if earlier is [] then w0 else w1) = fetches w ++ earlier ->
    resp = match JSON_stringify (eng P) (success_value P task (primary_model P) out) with
           | Ok body => {| statusCode := 200; res_headers := hs; res_body := body |}
           | Throw e => {| statusCode := 502; res_headers := hs;
                           res_body := upstream_failure_body e |}
           end ->
    (length earlier <= 1)%nat ->
    exists earlier rq status text v result task,
      fetches w' = fetches w ++ earlier ++ [rq]
      /\ (length earlier <= 1)%nat
      /\ fetch P (length (fetches w ++ earlier)) rq = FetchResponds status text
      /\ status_ok status = true
      /\ extractJson (eng P) (Some (message_content text)) = Ok v
      /\ (if truthy v then result = v
          else exists x,
                 toString (eng P) (message_content text) = Ok x
                 /\ result = JObj [(lit "raw", JStr (slice0 50000 x))])
      /\ truthy result = true
      /\ res_body resp
         = stringify (JObj [
             (lit "ok", JBool true);
             (lit "task", JStr task);
             (lit "provider", JStr (provider_of P));
             (lit "model_used", JStr (primary_model P));
             (lit "result", result);
             (lit "usage", js_or_else (get (safeJsonParse text) "usage") JNull) ])).
  { intros out w1 earlier Hrun Hbefore Hresp Hlen.
    pose proof (run_sends P _ _ _ _ _ _ _ Hrun) as Hsent.
    apply run_returns in Hrun
      as (to & status & text & v & Hto & Hfetch & Hok & Hus & Hex & Hres & Htruthy).
    unfold requests_for in Hsent. cbn [flat_map c_provider] in Hsent.
    rewrite Hto in Hsent. cbn [fmap option_fmap option_map option_list app] in Hsent.
    rewrite Hbefore in Hsent, Hfetch.
    exists earlier, (request_for
                       {| c_provider := provider_of P;
                          c_model := match earlier with
                                     | [] => primary_model P
                                     | _ => fallback_model P
                                     end;
                          c_system := system p; c_user := user p;
                          c_temperature := temperature_of payload |} to),
      status, text, v, (parsed out), task.
    split; [now rewrite Hsent, <- app_assoc|]. split; [exact Hlen|].
    split; [exact Hfetch|]. split; [exact Hok|]. split; [exact Hex|].
    split; [exact Hres|]. split; [exact Htruthy|].
    subst resp. unfold JSON_stringify in *.
    destruct (prints (eng P) _); [|discriminate H200].
    cbn [res_body]. unfold success_value. now rewrite Hus. }
  destruct (run P _ p _ (primary_model P) w0) as [[out|e1] w1] eqn:E1.
  { injection Hh as Hresp <-.
    apply (Hanswer out w0 []);
      [exact E1 | now rewrite app_nil_r | now symmetry | cbn; lia]. }
  pose proof (run_sends P _ _ _ _ _ _ _ E1) as Hsent1.
  destruct (run P _ p _ (fallback_model P) w1) as [[out|e2] w2] eqn:E2.
  - injection Hh as Hresp <-.
    (* the fallback run returned, so the provider has an end point and the
       primary run has sent its request *)
    pose proof E2 as Hto. apply run_returns in Hto as (to & _ & _ & _ & Hto & _).
    unfold requests_for in Hsent1. cbn [flat_map c_provider] in Hsent1.
    rewrite Hto in Hsent1. cbn [fmap option_fmap option_map option_list app] in Hsent1.
    apply (Hanswer out w1
             [request_for {| c_provider := provider_of P; c_model := primary_model P;
                             c_system := system p; c_user := user p;
                             c_temperature := temperature_of payload |} to]);
      [exact E2 | now rewrite Hsent1, Hf0 | now symmetry | cbn; lia].
  - injection Hh as <- <-. discriminate H200.
Qed.

Lemma result_is_truthy_or_wrapper_witness :
  (exists resp w' rq task,
     handler P_scalar ask fresh = (Ok resp, w')
     /\ fetches w' = [rq]
     /\ res_body resp
        = stringify (JObj [
            (lit "ok", JBool true);
            (lit "task", JStr task);
            (lit "provider", JStr (lit "openrouter"));
            (lit "model_used", JStr (lit "google/gemma-3-12b-it:free"));
            (lit "result", JNum (Dec false [5] 1));
            (lit "usage", JNull) ]))
  /\
  (exists resp w' rq task,
     handler P_prose ask fresh = (Ok resp, w')
     /\ fetches w' = [rq]
     /\ res_body resp
        = stringify (JObj [
            (lit "ok", JBool true);
            (lit "task", JStr task);
            (lit "provider", JStr (lit "openrouter"));
            (lit "model_used", JStr (lit "google/gemma-3-12b-it:free"));
            (lit "result", JObj [(lit "raw", JStr (lit "I cannot answer that."))]);
            (lit "usage", JNull) ])).
Proof.
  split.
  - destruct (handler P_scalar ask fresh) as [[resp|e] w'] eqn:Hh;
      [|exfalso; vm_compute in Hh; discriminate].
    assert (H200 : statusCode resp = 200%Z)
      by (vm_compute in Hh; injection Hh as <- <-; reflexivity).
    destruct (result_is_truthy_or_wrapper P_scalar ask fresh resp w' Hh H200)
      as (earlier & rq & status & text & v & result & task
          & Hf & Hlen & Hfetch & Hok & Hex & Hres & Ht & Hbody).
    exists resp, w', rq, task. split; [reflexivity|].
    assert (Hearlier : earlier = []).
    { vm_compute in Hh. injection Hh as _ <-. cbn [fetches app] in Hf.
      destruct earlier as [|a [|b l]]; [reflexivity | discriminate Hf | cbn in Hlen; lia]. }
    subst earlier. split; [exact Hf|].
    cbn [fetch P_scalar] in Hfetch. unfold completion in Hfetch.
    injection Hfetch as <- <-.
    vm_compute in Hex. injection Hex as <-. cbn [truthy dec_is_zero ddigits negb] in Hres.
    subst result. rewrite Hbody. reflexivity.
  - destruct (handler P_prose ask fresh) as [[resp|e] w'] eqn:Hh;
      [|exfalso; vm_compute in Hh; discriminate].
    assert (H200 : statusCode resp = 200%Z)
      by (vm_compute in Hh; injection Hh as <- <-; reflexivity).
    destruct (result_is_truthy_or_wrapper P_prose ask fresh resp w' Hh H200)
      as (earlier & rq & status & text & v & result & task
          & Hf & Hlen & Hfetch & Hok & Hex & Hres & Ht & Hbody).
    exists resp, w', rq, task. split; [reflexivity|].
    assert (Hearlier : earlier = []).
    { vm_compute in Hh. injection Hh as _ <-. cbn [fetches app] in Hf.
      destruct earlier as [|a [|b l]]; [reflexivity | discriminate Hf | cbn in Hlen; lia]. }
    subst earlier. split; [exact Hf|].
    cbn [fetch P_prose] in Hfetch. unfold completion in Hfetch.
    injection Hfetch as <- <-.
    vm_compute in Hex. injection Hex as <-. cbn [truthy] in Hres.
    destruct Hres as (x & Hx & ->). vm_compute in Hx. injection Hx as <-.
    rewrite Hbody. reflexivity.
Defined.

(** C8 as stated fails: the model answers with the text [5] and the [result]
    of the 200 response is the number 5, not an object; the model answers
    with the text [1e400], which reads as [Infinity], and the [result] of
    the 200 response is [null]. *)
Lemma result_can_be_a_number_or_null :
  (exists resp w answer,
     handler P_scalar ask fresh = (Ok resp, w)
     /\ statusCode resp = 200%Z
     /\ JSON_parse (res_body resp) = Some answer
     /\ get answer "result" = Some (JNum (Dec false [5] 1))
     /\ (forall kvs, get answer "result" <> Some (JObj kvs)))
  /\
  (exists resp w answer,
     handler P_huge ask fresh = (Ok resp, w)
     /\ statusCode resp = 200%Z
     /\ JSON_parse (res_body resp) = Some answer
     /\ get answer "result" = Some JNull).
Proof.
  split.
  - eexists _, _, _. split; [vm_compute; reflexivity|].
    split; [reflexivity|]. split; [vm_compute; reflexivity|].
    split; [vm_compute; reflexivity|].
    intros kvs. vm_compute. discriminate.
  - eexists _, _, _. split; [vm_compute; reflexivity|].
    split; [reflexivity|]. split; [vm_compute; reflexivity|].
    vm_compute. reflexivity.
Qed.
